(** * The streaming progress reader of the pharma-agent frontend

    A shallow embedding of the [useSSE] hook (frontend/src/hooks/useSSE,
    the second document of [src/frontend/src/main.tsx]) and the proofs of
    its specification.

    The hook issues a POST request with [fetch], reads the response body
    chunk by chunk, reassembles newline-delimited [data: <json>] lines and
    drives four pieces of React state ([data], [isConnected], [isComplete],
    [error]) and two optional callbacks ([onComplete], [onError]).

    What the browser provides (the byte decoder of [TextDecoder], the reader
    of [JSON.parse], the results of [fetch] and of [reader.read()]) is kept
    apart from the code of the hook: the decoder and the JSON reader are the
    fields of the class [Platform], the network is a script of results. *)

From Stdlib Require Import String Ascii List Bool Arith ZArith.
From Stdlib Require Import SpecFloat DecimalString.
Import ListNotations.

Set Warnings "-register-all".

Local Open Scope list_scope.
Local Open Scope string_scope.

(** ** JavaScript values *)

Module JS.

(** The values [JSON.parse] can return. A number is an IEEE 754 binary64
    datum; an object is the list of its own properties, where the first
    binding of a key is the one a property read sees. *)
Inductive Value : Type :=
| Null
| Bool (b : bool)
| Number (x : spec_float)
| Str (s : string)
| Array (elems : list Value)
| Object (props : list (string * Value)).

(** An error object: what [throw] raises and a rejected promise carries. *)
Record Error : Type := mkError { name : string; message : string }.

(** [new Error(msg)] *)
Definition new_Error (msg : string) : Error := mkError "Error" msg.

Fixpoint lookup (key : string) (props : list (string * Value)) : option Value :=
  match props with
  | [] => None
  | (k, v) :: rest => if String.eqb k key then Some v else lookup key rest
  end.

(** [v.key] for a value [v] other than [null] and a key that no prototype
    defines ([type], [message] and [result] are such keys): [None] is
    [undefined]. Reading a property of [null] throws instead, see
    [try_block]. *)
Definition prop (v : Value) (key : string) : option Value :=
  match v with
  | Object props => lookup key props
  | _ => None
  end.

(** ToBoolean, on a value that may be [undefined]. *)
Definition truthy (v : option Value) : bool :=
  match v with
  | None => false
  | Some Null => false
  | Some (Bool b) => b
  | Some (Number (S754_zero _)) => false
  | Some (Number S754_nan) => false
  | Some (Number _) => true
  | Some (Str s) => negb (String.eqb s EmptyString)
  | Some (Array _) => true
  | Some (Object _) => true
  end.

(** [v || dflt] *)
Definition or_else (v : option Value) (dflt : Value) : Value :=
  match v with
  | Some x => if truthy v then x else dflt
  | None => dflt
  end.

(** [v === 'lit'] for a string literal. *)
Definition is_string (v : option Value) (lit : string) : bool :=
  match v with
  | Some (Str s) => String.eqb s lit
  | _ => false
  end.

End JS.

(** ** Strings *)

Definition LF : ascii := "010"%char.

(** The one-character string holding a line feed. *)
Definition nl : string := String LF EmptyString.

(** [s.split(sep)] for a separator of one character: never empty. *)
Fixpoint split (sep : ascii) (s : string) : list string :=
  match s with
  | EmptyString => [EmptyString]
  | String c s' =>
      if Ascii.eqb c sep then EmptyString :: split sep s'
      else match split sep s' with
           | [] => [String c EmptyString]
           | first :: others => String c first :: others
           end
  end.

(** [s.slice(n)] for [n >= 0]. *)
Fixpoint slice (n : nat) (s : string) : string :=
  match n, s with
  | O, _ => s
  | S n', String _ s' => slice n' s'
  | S _, EmptyString => EmptyString
  end.

(** [s.startsWith(p)] *)
Definition startsWith (s p : string) : bool := String.prefix p s.

(** Template-literal rendering of a non-negative integer. *)
Definition show_nat (n : nat) : string := NilEmpty.string_of_uint (Nat.to_uint n).

(** ** What the browser provides *)

(** [TextDecoder] in streaming mode is a state machine over byte chunks
    (it may hold back the bytes of an unfinished character); [JSON.parse]
    returns a value or throws. *)
Class Platform : Type := {
  Chunk : Type;
  Decoder : Type;
  new_TextDecoder : Decoder;
  decode : Decoder -> Chunk -> string * Decoder;
  JSON_parse : string -> JS.Value + JS.Error
}.

(** What one [await reader.read()] yields, while the stream is open and has
    not ended: a chunk, or a rejection (transport failure, or abort). The end
    of the script is the end of the stream ([done]). *)
Inductive ReadResult {P : Platform} : Type :=
| Resolves (value : Chunk)
| Rejects (err : JS.Error).

Record Response {P : Platform} : Type := {
  status : nat;
  statusText : string;
  body : option (list ReadResult)
}.

(** [response.ok] *)
Definition ok {P : Platform} (response : Response) : bool :=
  ((200 <=? status response) && (status response <=? 299))%nat.

Inductive FetchResult {P : Platform} : Type :=
| FetchResolves (response : Response)
| FetchRejects (err : JS.Error).

(** ** The hook *)

(** The React state of the hook. *)
Record Hook : Type := {
  data : JS.Value;
  isConnected : bool;
  isComplete : bool;
  error : JS.Value
}.

(** [UseSSEOptions]; a callback is modelled by whether it was given and by
    what it does when called with an argument: it returns ([None]) or throws
    an error. Its invocations are recorded in the trace. *)
Record UseSSEOptions : Type := {
  enabled : bool;
  onComplete : bool;
  onError : bool;
  onComplete_throws : JS.Value -> option JS.Error;
  onError_throws : JS.Value -> option JS.Error
}.

(** The calls a session makes, in order. *)
Inductive Call : Type :=
| setData (update : JS.Value)
| setIsConnected (b : bool)
| setIsComplete (b : bool)
| setError (e : JS.Value)
| call_onComplete (result : JS.Value)
| call_onError (msg : JS.Value)
| reader_cancel
| console_error (label : string) (err : JS.Error).

(** A running session: the hook's state, whether the reader was cancelled,
    and the calls made so far. *)
Record Run : Type := {
  hook : Hook;
  cancelled : bool;
  trace : list Call
}.

Definition apply_call (c : Call) (h : Hook) : Hook :=
  match c with
  | setData v => {| data := v; isConnected := isConnected h;
                    isComplete := isComplete h; error := error h |}
  | setIsConnected b => {| data := data h; isConnected := b;
                           isComplete := isComplete h; error := error h |}
  | setIsComplete b => {| data := data h; isConnected := isConnected h;
                          isComplete := b; error := error h |}
  | setError e => {| data := data h; isConnected := isConnected h;
                     isComplete := isComplete h; error := e |}
  | _ => h
  end.

(** Perform one call. *)
Definition perform (c : Call) (r : Run) : Run :=
  {| hook := apply_call c (hook r);
     cancelled := match c with reader_cancel => true | _ => cancelled r end;
     trace := (trace r ++ [c])%list |}.

Notation "r ;> c" := (perform c r) (at level 50, left associativity).

(** A session starts with the reader open and nothing done. *)
Definition start (h : Hook) : Run := {| hook := h; cancelled := false; trace := [] |}.

(** How a statement completes inside the [for] loop. *)
Inductive Completion : Type :=
| Normal
| Break
| Throw (err : JS.Error).

(** The [TypeError] raised by [update.type] when [update] is [null]. *)
Definition TypeError_null : JS.Error :=
  JS.mkError "TypeError" "Cannot read properties of null (reading 'type')".

Section Session.

Context {P : Platform}.
Variable options : UseSSEOptions.

(** The captured [isComplete]: the value of the render that created the
    effect, which is what the closure of [connectSSE] reads. *)
Variable isComplete_captured : bool.

(** Lines 168-190: the body of the inner [try]. The callbacks are called
    inside it: when one throws, the statement completes with that throw and
    the [break] that follows the call is not reached. *)
Definition try_block (jsonData : string) (r : Run) : Run * Completion :=
  match JSON_parse jsonData with
  | inr err => (r, Throw err)
  | inl update =>
      let r := r ;> setData update in
      match update with
      | JS.Null => (r, Throw TypeError_null)
      | _ =>
          if JS.is_string (JS.prop update "type") "complete" then
            let r := r ;> setIsComplete true ;> reader_cancel in
            if onComplete options && JS.truthy (JS.prop update "result") then
              match JS.prop update "result" with
              | Some result =>
                  match onComplete_throws options result with
                  | Some err => (r ;> call_onComplete result, Throw err)
                  | None => (r ;> call_onComplete result, Break)
                  end
              | None => (r, Break)
              end
            else (r, Break)
          else if JS.is_string (JS.prop update "type") "error" then
            let errorMsg := JS.or_else (JS.prop update "message") (JS.Str "Analysis failed") in
            let r := r ;> setError errorMsg ;> reader_cancel in
            if onError options then
              match onError_throws options errorMsg with
              | Some err => (r ;> call_onError errorMsg, Throw err)
              | None => (r ;> call_onError errorMsg, Break)
              end
            else (r, Break)
          else (r, Normal)
      end
  end.

(** Lines 164-197: one iteration of the [for] loop; [true] when it
    breaks out of the loop. *)
Definition for_body (line : string) (r : Run) : Run * bool :=
  if startsWith line "data: " then
    let jsonData := slice 6 line in
    match try_block jsonData r with
    | (r, Normal) => (r, false)
    | (r, Break) => (r, true)
    | (r, Throw err) =>
        (r ;> console_error "Failed to parse SSE message:" err
           ;> setError (JS.Str "Failed to parse progress update")
           ;> reader_cancel,
         true)
    end
  else (r, false).

(** Lines 163-198: [for (const line of lines)]. *)
Fixpoint for_lines (lines : list string) (r : Run) : Run :=
  match lines with
  | [] => r
  | line :: rest =>
      let (r', broke) := for_body line r in
      if broke then r' else for_lines rest r'
  end.

(** [lines.pop() || ''] leaves the last piece in the buffer. *)
Definition pop (pieces : list string) : list string * string :=
  (removelast pieces, last pieces EmptyString).

(** Lines 149-199: [while (true)]. A read on a cancelled reader resolves
    with [done], as does a read at the end of the stream. The second
    component is the error thrown out of the loop, if any. *)
Fixpoint while_loop (reads : list ReadResult) (decoder : Decoder)
         (buffer : string) (r : Run) : Run * option JS.Error :=
  if cancelled r then (r, None)
  else
    match reads with
    | [] => (r, None)
    | Rejects err :: _ => (r, Some err)
    | Resolves value :: reads' =>
        let (text, decoder') := decode decoder value in
        let buffer := buffer ++ text in
        let (lines, buffer) := pop (split LF buffer) in
        while_loop reads' decoder' buffer (for_lines lines r)
    end.

(** Lines 123-199: the body of the outer [try]. *)
Definition try_connect (net : FetchResult) (r : Run) : Run * option JS.Error :=
  match net with
  | FetchRejects err => (r, Some err)
  | FetchResolves response =>
      if negb (ok response) then
        (r, Some (JS.new_Error
                    ("HTTP " ++ show_nat (status response) ++ ": " ++ statusText response)))
      else
        let r := r ;> setIsConnected true in
        match body response with
        | None => (r, Some (JS.new_Error "No response body"))
        | Some reads => while_loop reads new_TextDecoder EmptyString r
        end
  end.

(** [err.message || 'Connection failed'] *)
Definition message_or_default (err : JS.Error) : JS.Value :=
  JS.Str (if String.eqb (JS.message err) EmptyString
          then "Connection failed"
          else JS.message err).

(** Lines 121-214. A throw of [onError] in the outer [catch] rejects the
    promise of [connectSSE], which nothing awaits: no call follows it, so the
    run is the same whether the callback returns or throws there. *)
Definition connectSSE (net : FetchResult) (h : Hook) : Run :=
  match try_connect net (start h) with
  | (r, None) => r
  | (r, Some err) =>
      if String.eqb (JS.name err) "AbortError" then r
      else
        let r := r ;> console_error "SSE connection error:" err
                   ;> setError (message_or_default err)
                   ;> setIsConnected false in
        if onError options && negb isComplete_captured
        then r ;> call_onError (message_or_default err)
        else r
  end.

End Session.

(** Lines 111-114: the state the effect resets to. *)
Definition reset : Hook :=
  {| data := JS.Null; isConnected := false; isComplete := false; error := JS.Null |}.

(** Lines 105-216: the effect of [useSSE], run in a render whose hook state
    is [h]. [connectSSE] closes over that render's [isComplete]. The four
    setters of the reset are not recorded: the trace of a session holds the
    calls of [connectSSE]. *)
Definition useSSE_effect {P : Platform} (url : string) (options : UseSSEOptions)
           (net : FetchResult) (h : Hook) : Run :=
  if negb (enabled options) || String.eqb url EmptyString then start h
  else connectSSE options (isComplete h) net reset.

(** Lines 219-222 and 233-238: what the cleanup and [close] do to the state,
    besides aborting the request. *)
Definition cleanup (h : Hook) : Hook := apply_call (setIsConnected false) h.

(** ** A reference platform for texts in ASCII

    The results about the hook hold for every [Platform]. To run the hook on
    concrete streams, this platform takes chunks that are already text (on
    ASCII bytes [TextDecoder] is the identity) and reads JSON by the grammar
    of ECMA-404. A string stands for its UTF-8 bytes: a [\u] escape is stored
    as the bytes of its code unit. *)

Module Json.

Definition SyntaxError : JS.Error := JS.mkError "SyntaxError" "Unexpected token in JSON".

Definition quote : ascii := "034"%char.

Definition is_ws (c : ascii) : bool :=
  match nat_of_ascii c with
  | 32 | 9 | 10 | 13 => true
  | _ => false
  end.

Fixpoint skip_ws (s : string) : string :=
  match s with
  | String c rest => if is_ws c then skip_ws rest else s
  | EmptyString => s
  end.

Definition digit_of (c : ascii) : option nat :=
  let n := nat_of_ascii c in
  if ((48 <=? n) && (n <=? 57))%nat then Some (n - 48) else None.

Definition hex_of (c : ascii) : option nat :=
  let n := nat_of_ascii c in
  if ((48 <=? n) && (n <=? 57))%nat then Some (n - 48)
  else if ((65 <=? n) && (n <=? 70))%nat then Some (n - 55)
  else if ((97 <=? n) && (n <=? 102))%nat then Some (n - 87)
  else None.

(** The UTF-8 bytes of a 16-bit code unit. *)
Definition utf8 (u : nat) : string :=
  if (u <? 128)%nat then String (ascii_of_nat u) EmptyString
  else if (u <? 2048)%nat then
    String (ascii_of_nat (192 + u / 64)) (String (ascii_of_nat (128 + u mod 64)) EmptyString)
  else
    String (ascii_of_nat (224 + u / 4096))
      (String (ascii_of_nat (128 + (u / 64) mod 64))
         (String (ascii_of_nat (128 + u mod 64)) EmptyString)).

(** The characters of a string literal after its opening quote, up to and
    including the closing quote. *)
Fixpoint string_chars (s : string) : option (string * string) :=
  match s with
  | EmptyString => None
  | String c rest =>
      if Ascii.eqb c quote then Some (EmptyString, rest)
      else if Ascii.eqb c "\"%char then
        match rest with
        | String e rest' =>
            let simple (x : ascii) :=
              match string_chars rest' with
              | Some (body, tail) => Some (String x body, tail)
              | None => None
              end in
            if Ascii.eqb e quote then simple quote
            else if Ascii.eqb e "\"%char then simple "\"%char
            else if Ascii.eqb e "/"%char then simple "/"%char
            else if Ascii.eqb e "b"%char then simple "008"%char
            else if Ascii.eqb e "f"%char then simple "012"%char
            else if Ascii.eqb e "n"%char then simple "010"%char
            else if Ascii.eqb e "r"%char then simple "013"%char
            else if Ascii.eqb e "t"%char then simple "009"%char
            else if Ascii.eqb e "u"%char then
              match rest' with
              | String h1 (String h2 (String h3 (String h4 rest''))) =>
                  match hex_of h1, hex_of h2, hex_of h3, hex_of h4,
                        string_chars rest'' with
                  | Some a, Some b, Some c', Some d, Some (body, tail) =>
                      Some (utf8 (((a * 16 + b) * 16 + c') * 16 + d) ++ body, tail)
                  | _, _, _, _, _ => None
                  end
              | _ => None
              end
            else None
        | EmptyString => None
        end
      else if (nat_of_ascii c <? 32)%nat then None
      else
        match string_chars rest with
        | Some (body, tail) => Some (String c body, tail)
        | None => None
        end
  end.

Fixpoint take_digits (s : string) : list nat * string :=
  match s with
  | String c rest =>
      match digit_of c with
      | Some d => let (ds, tail) := take_digits rest in (d :: ds, tail)
      | None => ([], s)
      end
  | EmptyString => ([], s)
  end.

Definition Z_of_digits (ds : list nat) : Z :=
  fold_left (fun acc d => (acc * 10 + Z.of_nat d)%Z) ds 0%Z.

(** The binary64 number nearest to [m * 10 ^ e10] (ties to even), with the
    sign [neg]. *)
Definition to_binary64 (neg : bool) (m : Z) (e10 : Z) : spec_float :=
  match m with
  | Zpos p =>
      match e10 with
      | Zneg k =>
          SFdiv 53 1024 (S754_finite neg p 0) (S754_finite false (Pos.pow 10 k) 0)
      | _ => binary_normalize 53 1024 (if neg then - (m * 10 ^ e10) else m * 10 ^ e10)%Z 0 neg
      end
  | _ => S754_zero neg
  end.

Definition number (s : string) : option (spec_float * string) :=
  let (neg, s0) :=
    match s with
    | String "-"%char rest => (true, rest)
    | _ => (false, s)
    end in
  let (int_ds, s1) := take_digits s0 in
  match int_ds with
  | [] => None
  | O :: _ :: _ => None
  | _ =>
      let frac :=
        match s1 with
        | String "."%char rest =>
            match take_digits rest with
            | ([], _) => None
            | (ds, tail) => Some (ds, tail)
            end
        | _ => Some ([], s1)
        end in
      match frac with
      | None => None
      | Some (frac_ds, s2) =>
          let expo :=
            match s2 with
            | String c rest =>
                if Ascii.eqb c "e"%char || Ascii.eqb c "E"%char then
                  let (eneg, rest') :=
                    match rest with
                    | String "-"%char r => (true, r)
                    | String "+"%char r => (false, r)
                    | _ => (false, rest)
                    end in
                  match take_digits rest' with
                  | ([], _) => None
                  | (ds, tail) =>
                      Some ((if eneg then - Z_of_digits ds else Z_of_digits ds)%Z, tail)
                  end
                else Some (0%Z, s2)
            | EmptyString => Some (0%Z, s2)
            end in
          match expo with
          | None => None
          | Some (e, s3) =>
              Some (to_binary64 neg (Z_of_digits (int_ds ++ frac_ds)%list)
                                (e - Z.of_nat (List.length frac_ds))%Z,
                    s3)
          end
      end
  end.

(** A later binding of a key replaces the earlier one. *)
Fixpoint set_prop (k : string) (v : JS.Value) (props : list (string * JS.Value))
  : list (string * JS.Value) :=
  match props with
  | [] => [(k, v)]
  | (k', v') :: rest =>
      if String.eqb k' k then (k', v) :: rest else (k', v') :: set_prop k v rest
  end.

Fixpoint value (fuel : nat) (s : string) : option (JS.Value * string) :=
  match fuel with
  | O => None
  | S fuel' =>
      match skip_ws s with
      | String c rest =>
          if Ascii.eqb c "{"%char then
            match skip_ws rest with
            | String "}"%char tail => Some (JS.Object [], tail)
            | _ => members fuel' rest []
            end
          else if Ascii.eqb c "["%char then
            match skip_ws rest with
            | String "]"%char tail => Some (JS.Array [], tail)
            | _ => elements fuel' rest []
            end
          else if Ascii.eqb c quote then
            match string_chars rest with
            | Some (str, tail) => Some (JS.Str str, tail)
            | None => None
            end
          else if String.prefix "true" (String c rest) then Some (JS.Bool true, slice 4 (String c rest))
          else if String.prefix "false" (String c rest) then Some (JS.Bool false, slice 5 (String c rest))
          else if String.prefix "null" (String c rest) then Some (JS.Null, slice 4 (String c rest))
          else
            match number (String c rest) with
            | Some (x, tail) => Some (JS.Number x, tail)
            | None => None
            end
      | EmptyString => None
      end
  end

with elements (fuel : nat) (s : string) (acc : list JS.Value) : option (JS.Value * string) :=
  match fuel with
  | O => None
  | S fuel' =>
      match value fuel' s with
      | Some (v, rest) =>
          match skip_ws rest with
          | String ","%char tail => elements fuel' tail (acc ++ [v])%list
          | String "]"%char tail => Some (JS.Array (acc ++ [v])%list, tail)
          | _ => None
          end
      | None => None
      end
  end

with members (fuel : nat) (s : string) (acc : list (string * JS.Value))
  : option (JS.Value * string) :=
  match fuel with
  | O => None
  | S fuel' =>
      match skip_ws s with
      | String c rest =>
          if Ascii.eqb c quote then
            match string_chars rest with
            | Some (key, rest1) =>
                match skip_ws rest1 with
                | String ":"%char rest2 =>
                    match value fuel' rest2 with
                    | Some (v, rest3) =>
                        match skip_ws rest3 with
                        | String ","%char tail => members fuel' tail (set_prop key v acc)
                        | String "}"%char tail => Some (JS.Object (set_prop key v acc), tail)
                        | _ => None
                        end
                    | None => None
                    end
                | _ => None
                end
            | None => None
            end
          else None
      | EmptyString => None
      end
  end.

(** [JSON.parse(text)] *)
Definition parse (text : string) : JS.Value + JS.Error :=
  match value (2 * String.length text + 2) text with
  | Some (v, rest) =>
      match skip_ws rest with
      | EmptyString => inl v
      | _ => inr SyntaxError
      end
  | None => inr SyntaxError
  end.

End Json.

(** Chunks of ASCII text, decoded by the identity. *)
Definition text_platform : Platform :=
  {| Chunk := string;
     Decoder := unit;
     new_TextDecoder := tt;
     decode := fun d chunk => (chunk, d);
     JSON_parse := Json.parse |}.

(** Writes the double quotes of a JSON text as apostrophes. *)
Fixpoint q (s : string) : string :=
  match s with
  | EmptyString => EmptyString
  | String c rest => String (if Ascii.eqb c "'"%char then Json.quote else c) (q rest)
  end.

(** ** Sample streams *)

Module Sample.

Definition options : UseSSEOptions :=
  {| enabled := true; onComplete := true; onError := true;
     onComplete_throws := fun _ => None; onError_throws := fun _ => None |}.



Definition chunk (text : string) : @ReadResult text_platform :=
  @Resolves text_platform text.

Definition response (code : nat) (reason : string)
           (reads : option (list (@ReadResult text_platform))) : @Response text_platform :=
  {| status := code; statusText := reason; body := reads |}.

(** A session on a 200 response with the given reads, from the reset state. *)
Definition session (reads : list (@ReadResult text_platform)) : Run :=
  @connectSSE text_platform options false
    (@FetchResolves text_platform (response 200 "OK" (Some reads))) reset.

Definition progress_payload : string :=
  q "{'type':'progress','message':'starting','progress':0}".

Definition progress_frame : JS.Value :=
  JS.Object [("type", JS.Str "progress"); ("message", JS.Str "starting");
             ("progress", JS.Number (S754_zero false))].

Definition complete_payload : string :=
  q "{'type':'complete','result':{'drug':'warfarin'}}".

Definition complete_frame : JS.Value :=
  JS.Object [("type", JS.Str "complete");
             ("result", JS.Object [("drug", JS.Str "warfarin")])].

Definition bare_complete_payload : string := q "{'type':'complete','result':null}".

Definition bare_complete_frame : JS.Value :=
  JS.Object [("type", JS.Str "complete"); ("result", JS.Null)].

Definition error_payload : string := q "{'type':'error','message':'DrugBank unavailable'}".

Definition error_frame : JS.Value :=
  JS.Object [("type", JS.Str "error"); ("message", JS.Str "DrugBank unavailable")].

Definition heartbeat_payload : string := q "{'type':'heartbeat'}".

Definition heartbeat_frame : JS.Value := JS.Object [("type", JS.Str "heartbeat")].

Definition malformed_payload : string := "{not json".

Definition AbortError : JS.Error := JS.mkError "AbortError" "The user aborted a request.".

Definition NetworkError : JS.Error := JS.mkError "TypeError" "network error".

(** The progress frame cut inside its first key, then the complete frame. *)
Definition split_stream : list string :=
  [q "data: {'typ";
   q "e':'progress','message':'starting','progress':0}" ++ nl ++ "data: ";
   complete_payload ++ nl].

End Sample.

(** ** Notions the statements use *)

(** The complete lines of a text and its unfinished last line, by recursion
    on the text: what [pop (split LF text)] computes (lemma [pop_split]). *)
Fixpoint scan (text : string) : list string * string :=
  match text with
  | EmptyString => ([], EmptyString)
  | String c text' =>
      let (lines, rest) := scan text' in
      if Ascii.eqb c LF then (EmptyString :: lines, rest)
      else match lines with
           | [] => ([], String c rest)
           | first :: others => (String c first :: others, rest)
           end
  end.

Definition complete_lines (text : string) : list string := fst (scan text).
Definition partial_line (text : string) : string := snd (scan text).

(** The text holds no line feed. *)
Fixpoint no_LF (s : string) : bool :=
  match s with
  | EmptyString => true
  | String c s' => negb (Ascii.eqb c LF) && no_LF s'
  end.

(** Each line followed by a line feed. *)
Fixpoint join (lines : list string) : string :=
  match lines with
  | [] => EmptyString
  | line :: rest => line ++ nl ++ join rest
  end.

(** The line that carries a payload. *)
Definition data_line (payload : string) : string := "data: " ++ payload.

(** The values handed to [setData], in order. *)
Fixpoint emitted (calls : list Call) : list JS.Value :=
  match calls with
  | [] => []
  | setData update :: rest => update :: emitted rest
  | _ :: rest => emitted rest
  end.

Definition is_callback (c : Call) : bool :=
  match c with
  | call_onComplete _ | call_onError _ => true
  | _ => false
  end.

(** [update.type === lit] *)
Definition has_type (update : JS.Value) (lit : string) : bool :=
  JS.is_string (JS.prop update "type") lit.

Section Notions.

Context {P : Platform}.

(** The text a decoder produces from a sequence of chunks, and the state
    it is left in. *)
Fixpoint decode_all (decoder : Decoder) (chunks : list Chunk) : string * Decoder :=
  match chunks with
  | [] => (EmptyString, decoder)
  | chunk :: rest =>
      let (text, decoder') := decode decoder chunk in
      let (text', decoder'') := decode_all decoder' rest in
      (text ++ text', decoder'')
  end.

Definition decoded (chunks : list Chunk) : string :=
  fst (decode_all new_TextDecoder chunks).

(** A line at which the reader stops: a [data: ] line whose payload does
    not parse, parses to [null], or is a [complete] or [error] frame. *)
Definition stops (line : string) : bool :=
  startsWith line "data: " &&
  match JSON_parse (slice 6 line) with
  | inr _ => true
  | inl JS.Null => true
  | inl update => has_type update "complete" || has_type update "error"
  end.

(** The payloads of the [data: ] lines that parse. *)
Fixpoint updates_of (lines : list string) : list JS.Value :=
  match lines with
  | [] => []
  | line :: rest =>
      if startsWith line "data: " then
        match JSON_parse (slice 6 line) with
        | inl update => update :: updates_of rest
        | inr _ => updates_of rest
        end
      else updates_of rest
  end.

(** The same response with another body. *)
Definition with_body (response : Response) (reads : list ReadResult) : Response :=
{| status := status response; statusText := statusText response; body := Some reads |}.

End Notions.

(** Performing a list of calls, in order. *)
Definition perform_all (calls : list Call) (r : Run) : Run :=
  fold_left (fun r c => r ;> c) calls r.

(** The state reached from [h] by the setters among [calls]. *)
Definition replay (calls : list Call) (h : Hook) : Hook :=
  fold_left (fun h c => apply_call c h) calls h.

(** What must have been handed to [setData] earlier for a call made inside
    the read loop to be in order: [isComplete] is only ever set to [true],
    and only for a [complete] frame; [onComplete] receives the truthy
    [result] of a [complete] frame; [onError] receives the message of an
    [error] frame, or the default one. *)
Definition call_in_order (updates : list JS.Value) (c : Call) : Prop :=
  match c with
  | setIsComplete b =>
      b = true /\ exists update, In update updates /\ has_type update "complete" = true
  | call_onComplete result =>
      exists update, In update updates /\ has_type update "complete" = true /\
                     JS.prop update "result" = Some result /\
                     JS.truthy (Some result) = true
  | call_onError msg =>
      exists update, In update updates /\ has_type update "error" = true /\
                     msg = JS.or_else (JS.prop update "message") (JS.Str "Analysis failed")
  | _ => True
  end.

Definition in_order (calls : list Call) : Prop :=
  forall c, In c calls -> call_in_order (emitted calls) c.

(** A run started from the state [h0] is sound when its state is the replay
    of its calls and its calls are in order. *)
Definition sound (h0 : Hook) (r : Run) : Prop :=
  hook r = replay (trace r) h0 /\ in_order (trace r).

(** The failures of the transport: what the outer [try] of [connectSSE]
    can throw. *)
Inductive Failure {P : Platform} : FetchResult -> JS.Error -> Prop :=
| fetch_rejected (err : JS.Error) :
    Failure (FetchRejects err) err
| request_failed (response : Response) :
    ok response = false ->
    Failure (FetchResolves response)
            (JS.new_Error ("HTTP " ++ show_nat (status response) ++ ": " ++ statusText response))
| no_body (response : Response) :
    ok response = true ->
    body response = None ->
    Failure (FetchResolves response) (JS.new_Error "No response body")
| read_rejected (response : Response) (chunks : list Chunk) (err : JS.Error)
                (rest : list ReadResult) :
    ok response = true ->
    body response = Some (map Resolves chunks ++ Rejects err :: rest)%list ->
    Failure (FetchResolves response) err.

(** ** How a session ends *)

(** The ways a session leaves the read loop or fails to enter it. *)
Inductive Outcome : Type :=
| Ended
| Completed (update : JS.Value)
| Reported (update : JS.Value)
| Unparsable (err : JS.Error)
| NullPayload
| Failed (err : JS.Error).

(** The calls of the inner [catch] for a thrown error. *)
Definition catch_calls (err : JS.Error) : list Call :=
  [console_error "Failed to parse SSE message:" err;
   setError (JS.Str "Failed to parse progress update");
   reader_cancel].

(** What follows the call of a callback inside the inner [try]: nothing when
    it returns, the calls of the [catch] when it throws. *)
Definition after_callback (thrown : option JS.Error) : list Call :=
  match thrown with
  | Some err => catch_calls err
  | None => []
  end.

(** The calls each ending makes, after the frames stored before it: the
    stream ends or the caller aborts ([Ended]); a [complete] frame; an
    [error] frame; a payload that does not parse; the payload [null]; a
    failure that reaches the outer [catch]. *)
Definition ending_calls (options : UseSSEOptions) (isComplete_captured : bool)
           (o : Outcome) : list Call :=
  match o with
  | Ended => []
  | Completed update =>
      [setData update; setIsComplete true; reader_cancel] ++
      (if onComplete options && JS.truthy (JS.prop update "result")
       then match JS.prop update "result" with
            | Some result =>
                call_onComplete result
                  :: after_callback (onComplete_throws options result)
            | None => []
            end
       else [])
  | Reported update =>
      [setData update;
       setError (JS.or_else (JS.prop update "message") (JS.Str "Analysis failed"));
       reader_cancel] ++
      (if onError options
       then call_onError (JS.or_else (JS.prop update "message") (JS.Str "Analysis failed"))
              :: after_callback
                   (onError_throws options
                      (JS.or_else (JS.prop update "message") (JS.Str "Analysis failed")))
       else [])
  | Unparsable err => catch_calls err
  | NullPayload => setData JS.Null :: catch_calls TypeError_null
  | Failed err =>
      [console_error "SSE connection error:" err;
       setError (message_or_default err);
       setIsConnected false] ++
      (if onError options && negb isComplete_captured
       then [call_onError (message_or_default err)]
       else [])
  end.

(** What the data of an ending must satisfy. *)
Definition valid_outcome (o : Outcome) : Prop :=
  match o with
  | Completed update => has_type update "complete" = true
  | Reported update => has_type update "error" = true
  | Failed err => JS.name err <> "AbortError"
  | _ => True
  end.

(** A frame that does not stop the reader. *)
Definition passing (update : JS.Value) : Prop :=
  update <> JS.Null /\ has_type update "complete" = false /\ has_type update "error" = false.

Definition is_cancel (c : Call) : bool :=
  match c with
  | reader_cancel => true
  | _ => false
  end.

(** The calls made after the first [reader.cancel()]. *)
Fixpoint after_cancel (calls : list Call) : list Call :=
  match calls with
  | [] => []
  | reader_cancel :: rest => rest
  | _ :: rest => after_cancel rest
  end.

(** ** The progress display that consumes the hook

    [AnalysisProgress] (the component that imports [ProgressUpdate] from the
    hook): the table of stages and the stage a step key selects. *)

Module Progress.

(** An entry of [STEPS]; its icon and colour, which come from the icon
    library and the theme, are left out. *)
Record Stage : Type := { key : string; label : string; description : string }.

Definition STEPS : list Stage :=
  [ {| key := "starting"; label := "Initializing";
       description := "Preparing analysis pipeline" |};
    {| key := "literature_mining"; label := "Literature Mining";
       description := "Searching medical databases" |};
    {| key := "genetics_analysis"; label := "Genetics Analysis";
       description := "Analyzing genetic variants" |};
    {| key := "normalizing"; label := "Data Processing";
       description := "Computing metrics & statistics" |};
    {| key := "generating_hypotheses"; label := "AI Recommendations";
       description := "Generating evidence-based hypotheses" |} ].

(** The own properties of [stepMap]. *)
Definition stepMap : list (string * nat) :=
  [ ("starting", 0); ("fetching_drugbank", 0);
    ("literature_mining", 1); ("extracting_article", 1); ("literature_complete", 1);
    ("genetics_analysis", 2); ("genetics_complete", 2);
    ("normalizing", 3); ("normalization_complete", 3);
    ("generating_hypotheses", 4); ("hypotheses_complete", 4) ].

Fixpoint own (k : string) (props : list (string * nat)) : option nat :=
  match props with
  | [] => None
  | (k', v) :: rest => if String.eqb k' k then Some v else own k rest
  end.

Section Lookup.

(** [stepMap] is an object literal: a key it does not hold is looked up in
    [Object.prototype]. [Object_prototype k] is the value found there when
    it is neither [undefined] nor [null] (a method such as [toString], for
    one). *)
Variable Inherited : Type.
Variable Object_prototype : string -> option Inherited.

(** [getActiveStep(step)], for [step] a string or [undefined]: the number
    found, or what [stepMap[step]] inherits. *)
Definition getActiveStep (step : option string) : nat + Inherited :=
  match step with
  | None => inl 0
  | Some k =>
      if String.eqb k EmptyString then inl 0
      else match own k stepMap with
           | Some n => inl n
           | None =>
               match Object_prototype k with
               | Some v => inr v
               | None => inl 0
               end
           end
  end.

End Lookup.

(** [isCompleted] and [isActive] of the stepper, for a numeric
    [activeStep]. *)
Definition isCompleted (activeStep index : nat) : bool := (index <? activeStep)%nat.
Definition isActive (activeStep index : nat) : bool := (activeStep =? index)%nat.

(** The names of the properties of [Object.prototype] in ECMAScript. *)
Definition standard_prototype (k : string) : option unit :=
  if existsb (String.eqb k)
       ["constructor"; "hasOwnProperty"; "isPrototypeOf"; "propertyIsEnumerable";
        "toLocaleString"; "toString"; "valueOf"; "__proto__";
        "__defineGetter__"; "__defineSetter__"; "__lookupGetter__"; "__lookupSetter__"]
  then Some tt else None.

End Progress.

(** ** The application that calls the hook

    [App] holds the results, the current query and whether the stream is
    enabled, and passes [handleComplete] and [handleError] to [useSSE]. *)

Module App.

(** [DrugQuery] *)
Record DrugQuery : Type := {
  drug : string;
  indication : option string;
  population : option string;
  article_count : option spec_float;
  clinical_trials_count : option spec_float
}.

Record State : Type := {
  results : JS.Value;
  currentQuery : option DrugQuery;
  sseEnabled : bool
}.

(** [handleComplete]: its logging does not touch the state. *)
Definition handleComplete (result : JS.Value) (app : State) : State :=
  if negb (JS.truthy (Some result)) then
    {| results := JS.Null; currentQuery := currentQuery app; sseEnabled := false |}
  else
    {| results := result; currentQuery := currentQuery app; sseEnabled := false |}.

(** [handleError] *)
Definition handleError (errorMsg : JS.Value) (app : State) : State :=
  {| results := results app; currentQuery := currentQuery app; sseEnabled := false |}.

(** [handleSearch] *)
Definition handleSearch (query : DrugQuery) (app : State) : State :=
  {| results := JS.Null; currentQuery := Some query; sseEnabled := true |}.

(** [API_BASE_URL], from the value of [VITE_API_URL]. *)
Definition API_BASE_URL (env : option string) : string :=
  match env with
  | Some v => if String.eqb v EmptyString then "http://localhost:8000" else v
  | None => "http://localhost:8000"
  end.

(** [apiClient.getAnalyzeStreamURL]: the parameters it collects are not
    used. *)
Definition getAnalyzeStreamURL (env : option string) (query : DrugQuery) : string :=
  API_BASE_URL env ++ "/api/analyze-stream".

(** [sseUrl] *)
Definition sseUrl (env : option string) (app : State) : string :=
  match currentQuery app with
  | Some query => getAnalyzeStreamURL env query
  | None => EmptyString
  end.

(** [currentQuery !== null] *)
Definition has_query (app : State) : bool :=
  match currentQuery app with
  | Some _ => true
  | None => false
  end.

(** The options [App] passes to [useSSE]: [handleComplete] and [handleError],
    neither of which throws. *)
Definition sseOptions (app : State) : UseSSEOptions :=
  {| enabled := sseEnabled app && has_query app;
     onComplete := true;
     onError := true;
     onComplete_throws := fun _ => None;
     onError_throws := fun _ => None |}.

(** One callback invocation of the hook, as [App] handles it. *)
Definition react (app : State) (c : Call) : State :=
  match c with
  | call_onComplete result => handleComplete result app
  | call_onError msg => handleError msg app
  | _ => app
  end.

(** The state of [App] after the callbacks of a run. *)
Definition after_run (app : State) (r : Run) : State := fold_left react (trace r) app.

(** The session [App] starts in a render with the hook state [h]. *)
Definition session {P : Platform} (env : option string) (app : State)
           (net : FetchResult) (h : Hook) : Run :=
  useSSE_effect (sseUrl env app) (sseOptions app) net h.

(** [sseEnabled && !isComplete]: the progress panel and the running badge
    are shown, the search form is disabled. *)
Definition analysis_running (app : State) (h : Hook) : bool :=
  sseEnabled app && negb (isComplete h).

(** [results &&]: the results are shown. *)
Definition results_shown (app : State) : bool := JS.truthy (Some (results app)).

(** [isComplete && !results && currentQuery]: the empty-results notice. *)
Definition empty_results_shown (app : State) (h : Hook) : bool :=
  isComplete h && negb (JS.truthy (Some (results app))) && has_query app.

End App.

(** Case analysis on one iteration of the [for] loop. *)
Ltac iteration :=
  unfold for_body, try_block, stops, has_type in *;
  repeat match goal with
    | |- context [startsWith ?l ?p] => destruct (startsWith l p) eqn:?
    | |- context [JSON_parse ?x] => destruct (JSON_parse x) as [[]|] eqn:?
    | |- context [JS.is_string ?v ?l] => destruct (JS.is_string v l) eqn:?
    | |- context [JS.prop ?v "result"] => destruct (JS.prop v "result") eqn:?
    | |- context [onComplete_throws ?o ?v] => destruct (onComplete_throws o v)
    | |- context [onError_throws ?o ?v] => destruct (onError_throws o v)
    | |- context [onComplete ?o] => destruct (onComplete o)
    | |- context [onError ?o] => destruct (onError o)
    | |- context [JS.truthy ?v] => destruct (JS.truthy v) eqn:?
    | _ => progress (simpl in *)
    end;
  try reflexivity; try discriminate; try congruence.

(** ** Strings and lines *)

Arguments slice : simpl never.
Arguments startsWith : simpl never.

Lemma append_assoc (a b c : string) : (a ++ b) ++ c = a ++ (b ++ c).
Proof. induction a as [|x a IH]; simpl; [reflexivity | now rewrite IH]. Qed.

Lemma append_empty_r (s : string) : s ++ EmptyString = s.
Proof. induction s as [|x s IH]; simpl; [reflexivity | now rewrite IH]. Qed.

Lemma split_not_nil (sep : ascii) (s : string) : split sep s <> [].
Proof.
  destruct s as [|c s]; simpl; [discriminate|].
  destruct (Ascii.eqb c sep); [discriminate|].
  destruct (split sep s); discriminate.
Qed.

Lemma pop_cons (x : string) (l : list string) :
  l <> [] -> pop (x :: l) = (x :: fst (pop l), snd (pop l)).
Proof. destruct l as [|y l]; [congruence | reflexivity]. Qed.

(** [lines.pop()] after [buffer.split('\\n')] yields the complete lines and
    leaves the unfinished one. *)
Lemma pop_split (s : string) : pop (split LF s) = scan s.
Proof.
  induction s as [|c s IH]; [reflexivity|].
  simpl split. simpl scan. rewrite <- IH.
  pose proof (split_not_nil LF s) as Hne.
  destruct (Ascii.eqb c LF).
  - rewrite (pop_cons _ _ Hne). now destruct (pop (split LF s)).
  - destruct (split LF s) as [|first [|o os]]; [congruence | reflexivity |].
    rewrite !pop_cons by discriminate. reflexivity.
Qed.

(** Scanning a text in two pieces: the unfinished line of the first piece
    is carried into the second. *)
Lemma scan_app (s t : string) :
  scan (s ++ t) =
  (fst (scan s) ++ fst (scan (snd (scan s) ++ t)), snd (scan (snd (scan s) ++ t)))%list.
Proof.
  induction s as [|c s IH]; simpl.
  - now destruct (scan t).
  - rewrite IH. destruct (scan s) as [lines rest]. simpl.
    destruct (Ascii.eqb c LF) eqn:Ec; simpl.
    + reflexivity.
    + destruct lines as [|first others]; simpl.
      * rewrite Ec. now destruct (scan (rest ++ t)) as [[|l ls] r].
      * reflexivity.
Qed.

Lemma scan_line (line rest : string) :
  no_LF line = true ->
  scan (line ++ nl ++ rest) = (line :: complete_lines rest, partial_line rest).
Proof.
  unfold complete_lines, partial_line.
  induction line as [|c line IH]; simpl; intros H.
  - now destruct (scan rest).
  - apply andb_prop in H as [Hc Hl]. apply negb_true_iff in Hc.
    simpl in IH. rewrite (IH Hl), Hc. reflexivity.
Qed.

(** Lines without line feeds are recovered from their concatenation. *)
Lemma scan_join (lines : list string) :
  Forall (fun l => no_LF l = true) lines -> scan (join lines) = (lines, EmptyString).
Proof.
  induction 1 as [|line rest Hl _ IH]; [reflexivity|].
  change (join (line :: rest)) with (line ++ nl ++ join rest).
  rewrite scan_line by exact Hl. unfold complete_lines, partial_line.
  now rewrite IH.
Qed.

Lemma perform_all_app (a b : list Call) (r : Run) :
  perform_all (a ++ b)%list r = perform_all b (perform_all a r).
Proof. apply fold_left_app. Qed.

Lemma trace_perform_all (calls : list Call) (r : Run) :
  trace (perform_all calls r) = (trace r ++ calls)%list.
Proof.
  revert r. induction calls as [|c calls IH]; intros r; simpl.
  - now rewrite app_nil_r.
  - rewrite IH. simpl. now rewrite <- app_assoc.
Qed.

Lemma emitted_app (a b : list Call) : emitted (a ++ b)%list = (emitted a ++ emitted b)%list.
Proof.
  induction a as [|c a IH]; [reflexivity|].
  destruct c; simpl; rewrite IH; reflexivity.
Qed.

Lemma emitted_setData (updates : list JS.Value) : emitted (map setData updates) = updates.
Proof. induction updates as [|u us IH]; simpl; [reflexivity | now rewrite IH]. Qed.

Lemma updates_of_app {P : Platform} (a b : list string) :
  updates_of (a ++ b)%list = (updates_of a ++ updates_of b)%list.
Proof.
  induction a as [|line a IH]; [reflexivity|]. simpl.
  destruct (startsWith line "data: "); [|exact IH].
  destruct (JSON_parse (slice 6 line)); [|exact IH].
  simpl. now rewrite IH.
Qed.

(** ** The loops *)

Arguments pop : simpl never.
Arguments split : simpl never.

Section Loops.

Context {P : Platform}.
Variable options : UseSSEOptions.

(** The loop breaks exactly when the reader has been cancelled. *)
Lemma for_body_cancelled (line : string) (r : Run) :
  cancelled (fst (for_body options line r)) = snd (for_body options line r) || cancelled r.
Proof. iteration. Qed.

Lemma for_body_stops (line : string) (r : Run) :
  snd (for_body options line r) = stops line.
Proof. iteration. Qed.

Lemma for_body_continues (line : string) (r : Run) :
  stops line = false ->
  for_body options line r = (perform_all (map setData (updates_of [line])) r, false).
Proof. intros H. simpl updates_of. revert H. iteration. Qed.

Lemma for_lines_continue (lines : list string) (r : Run) :
  Forall (fun l => stops l = false) lines ->
  for_lines options lines r = perform_all (map setData (updates_of lines)) r.
Proof.
  intros H. revert r. induction H as [|line rest Hl _ IH]; intros r; [reflexivity|].
  simpl for_lines. rewrite (for_body_continues _ _ Hl), IH.
  rewrite (updates_of_app [line] rest), map_app, perform_all_app. reflexivity.
Qed.

Lemma for_lines_app (a b : list string) (r : Run) :
  cancelled r = false ->
  for_lines options (a ++ b) r =
  if cancelled (for_lines options a r) then for_lines options a r
  else for_lines options b (for_lines options a r).
Proof.
  revert r. induction a as [|line a IH]; intros r Hr; simpl.
  - now rewrite Hr.
  - pose proof (for_body_cancelled line r) as Hc.
    destruct (for_body options line r) as [r' broke]. simpl in Hc.
    destruct broke; simpl in Hc.
    + now rewrite Hc.
    + apply IH. congruence.
Qed.

(** The loop stops at the first line that [stops]. *)
Lemma for_lines_stop (pre post : list string) (line : string) (r : Run) :
  Forall (fun l => stops l = false) pre ->
  stops line = true ->
  for_lines options (pre ++ line :: post) r =
  fst (for_body options line (perform_all (map setData (updates_of pre)) r)).
Proof.
  intros Hpre Hline. revert r.
  induction Hpre as [|l pre Hl _ IH]; intros r; simpl app; simpl for_lines.
  - pose proof (for_body_stops line r) as Hs. simpl perform_all.
    destruct (for_body options line r) as [r' broke]. simpl in *.
    rewrite Hline in Hs. now subst.
  - rewrite (for_body_continues _ _ Hl), IH.
    rewrite (updates_of_app [l] pre), map_app, perform_all_app. reflexivity.
Qed.

Lemma while_loop_cancelled (reads : list ReadResult) (decoder : Decoder)
      (buffer : string) (r : Run) :
  cancelled r = true -> while_loop options reads decoder buffer r = (r, None).
Proof. intros H. destruct reads; simpl; now rewrite H. Qed.

Lemma scan_partial (s : string) : scan (partial_line s) = ([], partial_line s).
Proof.
  unfold partial_line. induction s as [|c s IH]; [reflexivity|].
  simpl. destruct (scan s) as [lines rest]. simpl in IH.
  destruct (Ascii.eqb c LF) eqn:Ec; [exact IH|].
  destruct lines; [|exact IH].
  simpl. now rewrite IH, Ec.
Qed.

(** Reading a run of chunks amounts to running the [for] loop once over
    the complete lines of the whole decoded text: where the chunk
    boundaries fall does not matter. *)
Lemma while_loop_chunks (chunks : list Chunk) (rest : list ReadResult)
      (decoder : Decoder) (buffer : string) (r : Run) :
  cancelled r = false ->
  scan buffer = ([], buffer) ->
  while_loop options (map Resolves chunks ++ rest) decoder buffer r =
  while_loop options rest (snd (decode_all decoder chunks))
    (partial_line (buffer ++ fst (decode_all decoder chunks)))
    (for_lines options (complete_lines (buffer ++ fst (decode_all decoder chunks))) r).
Proof.
  revert decoder buffer r.
  induction chunks as [|chunk chunks IH]; intros decoder buffer r Hr Hb.
  - simpl. unfold partial_line, complete_lines.
    rewrite append_empty_r, Hb. reflexivity.
  - simpl map. simpl app. simpl while_loop. rewrite Hr.
    simpl decode_all.
    destruct (decode decoder chunk) as [text decoder1].
    destruct (decode_all decoder1 chunks) as [text' decoder2] eqn:Eall.
    simpl fst. simpl snd.
    change (last (split LF (buffer ++ text)) EmptyString)
      with (snd (pop (split LF (buffer ++ text)))).
    change (removelast (split LF (buffer ++ text)))
      with (fst (pop (split LF (buffer ++ text)))).
    rewrite pop_split. unfold partial_line, complete_lines.
    rewrite <- append_assoc, (scan_app (buffer ++ text) text').
    destruct (scan (buffer ++ text)) as [lines1 buffer1] eqn:E1. simpl fst. simpl snd.
    assert (Hb1 : scan buffer1 = ([], buffer1)).
    { pose proof (scan_partial (buffer ++ text)) as Hp.
      unfold partial_line in Hp. now rewrite E1 in Hp. }
    rewrite (for_lines_app lines1 _ _ Hr).
    destruct (cancelled (for_lines options lines1 r)) eqn:Ec.
    + rewrite !while_loop_cancelled by exact Ec. reflexivity.
    + rewrite (IH decoder1 buffer1 _ Ec Hb1), Eall. reflexivity.
Qed.

End Loops.

(** ** Sessions *)

Section Sessions.

Context {P : Platform}.
Variable options : UseSSEOptions.
Variable isComplete_captured : bool.

Lemma data_line_starts (payload : string) : startsWith (data_line payload) "data: " = true.
Proof. unfold startsWith, data_line. simpl. now destruct payload. Qed.

Lemma data_line_payload (payload : string) : slice 6 (data_line payload) = payload.
Proof. reflexivity. Qed.

Lemma has_type_exclusive (update : JS.Value) (a b : string) :
  has_type update a = true -> a <> b -> has_type update b = false.
Proof.
  unfold has_type, JS.is_string. destruct (JS.prop update "type") as [[]|]; try discriminate.
  intros Ha Hab. apply String.eqb_eq in Ha. subst. now apply String.eqb_neq.
Qed.

(** A response with a body: the read loop runs once over the complete lines
    of what the leading chunks decode to, then goes on with the other reads. *)
Lemma connect_chunks (response : Response) (chunks : list Chunk)
      (rest : list ReadResult) (h : Hook) :
  ok response = true ->
  body response = Some (map Resolves chunks ++ rest)%list ->
  try_connect options (FetchResolves response) (start h) =
  while_loop options rest (snd (decode_all new_TextDecoder chunks))
    (partial_line (decoded chunks))
    (for_lines options (complete_lines (decoded chunks)) (start h ;> setIsConnected true)).
Proof.
  intros Hok Hbody. unfold try_connect. rewrite Hok, Hbody. simpl negb. cbv iota.
  rewrite while_loop_chunks by reflexivity. reflexivity.
Qed.

(** No line stops the reader: every parsed payload is handed to [setData]
    and the loop goes on with the reads that follow the chunks. *)
Lemma session_quiet (response : Response) (chunks : list Chunk)
      (rest : list ReadResult) (h : Hook) :
  ok response = true ->
  body response = Some (map Resolves chunks ++ rest)%list ->
  Forall (fun l => stops l = false) (complete_lines (decoded chunks)) ->
  try_connect options (FetchResolves response) (start h) =
  while_loop options rest (snd (decode_all new_TextDecoder chunks))
    (partial_line (decoded chunks))
    (perform_all (setIsConnected true :: map setData (updates_of (complete_lines (decoded chunks))))
                 (start h)).
Proof.
  intros Hok Hbody Hq. rewrite (connect_chunks _ _ _ _ Hok Hbody).
  now rewrite (for_lines_continue _ _ _ Hq).
Qed.

(** Some line stops the reader: nothing after it is looked at, neither the
    lines that follow nor the reads that follow. *)
Lemma session_stops (response : Response) (chunks : list Chunk)
      (rest : list ReadResult) (h : Hook) (pre post : list string) (line : string) :
  ok response = true ->
  body response = Some (map Resolves chunks ++ rest)%list ->
  complete_lines (decoded chunks) = (pre ++ line :: post)%list ->
  Forall (fun l => stops l = false) pre ->
  stops line = true ->
  try_connect options (FetchResolves response) (start h) =
  (fst (for_body options line
          (perform_all (setIsConnected true :: map setData (updates_of pre)) (start h))),
   None).
Proof.
  intros Hok Hbody Hlines Hpre Hline.
  rewrite (connect_chunks _ _ _ _ Hok Hbody), Hlines.
  rewrite (for_lines_stop _ _ _ _ _ Hpre Hline).
  apply while_loop_cancelled.
  rewrite for_body_cancelled, for_body_stops, Hline. reflexivity.
Qed.

Lemma perform_setData_fields (updates : list JS.Value) (r : Run) :
  error (hook (perform_all (map setData updates) r)) = error (hook r) /\
  isComplete (hook (perform_all (map setData updates) r)) = isComplete (hook r) /\
  isConnected (hook (perform_all (map setData updates) r)) = isConnected (hook r) /\
  cancelled (perform_all (map setData updates) r) = cancelled r.
Proof.
  revert r. induction updates as [|u us IH]; intros r; simpl; [tauto|].
  destruct (IH (r ;> setData u)) as (He & Hc & Hn & Hx).
  unfold perform_all in *. rewrite He, Hc, Hn, Hx. simpl. tauto.
Qed.

(** *** Soundness of every run *)

Lemma call_in_order_mono (us us' : list JS.Value) (c : Call) :
  (forall u, In u us -> In u us') -> call_in_order us c -> call_in_order us' c.
Proof.
  intros Hsub. destruct c; simpl; auto.
  - intros [Hb (u & Hu & Ht)]. split; [exact Hb|]. exists u. auto.
  - intros (u & Hu & Ht). exists u. split; [auto | exact Ht].
  - intros (u & Hu & Ht). exists u. split; [auto | exact Ht].
Qed.

Lemma replay_step (h0 : Hook) (r : Run) (c : Call) :
  hook r = replay (trace r) h0 -> hook (r ;> c) = replay (trace (r ;> c)) h0.
Proof.
  intros H. unfold replay. simpl. rewrite fold_left_app. simpl.
  unfold replay in H. now rewrite <- H.
Qed.

Lemma sound_start (h : Hook) : sound h (start h).
Proof. split; [reflexivity | intros c []]. Qed.

Lemma sound_step (h0 : Hook) (r : Run) (c : Call) :
  sound h0 r -> call_in_order (emitted (trace r ++ [c])) c -> sound h0 (r ;> c).
Proof.
  intros [Hh Ho] Hc. split; [now apply replay_step|].
  intros c' Hin. simpl in Hin. apply in_app_or in Hin as [Hin | [<- | []]].
  - apply call_in_order_mono with (us := emitted (trace r)); [|now apply Ho].
    intros u Hu. simpl. rewrite emitted_app. apply in_or_app. now left.
  - exact Hc.
Qed.

(** Discharges the side conditions of [sound_step]. *)
Ltac in_order_now :=
  simpl call_in_order; simpl trace;
  try exact I;
  try (split; [reflexivity|]);
  try (match goal with |- context [setData ?u] => exists u end;
       repeat split;
       [ rewrite !emitted_app, !in_app_iff; simpl; tauto
       | first [eassumption | reflexivity] .. ]).

Ltac sound_steps :=
  repeat (apply sound_step); [assumption | in_order_now ..].

Lemma for_body_sound (h0 : Hook) (line : string) (r : Run) :
  sound h0 r -> sound h0 (fst (for_body options line r)).
Proof.
  intros Hr. unfold for_body, try_block.
  destruct (startsWith line "data: "); [|exact Hr].
  destruct (JSON_parse (slice 6 line)) as [update|err]; [|simpl; sound_steps].
  destruct (JS.is_string (JS.prop update "type") "complete") eqn:Ec.
  - destruct (onComplete options && JS.truthy (JS.prop update "result")) eqn:Et.
    + apply andb_prop in Et as [_ Et].
      destruct (JS.prop update "result") as [result|] eqn:Eres; [|discriminate].
      destruct (onComplete_throws options result);
        destruct update; simpl in Ec; try discriminate; simpl; sound_steps.
    + destruct update; simpl in Ec; try discriminate. simpl. sound_steps.
  - destruct (JS.is_string (JS.prop update "type") "error") eqn:Ee.
    + destruct (onError options);
        [destruct (onError_throws options
                     (JS.or_else (JS.prop update "message") (JS.Str "Analysis failed")))|];
        destruct update; simpl in Ee; try discriminate; simpl; sound_steps.
    + destruct update; simpl; sound_steps.
Qed.

Lemma for_lines_sound (h0 : Hook) (lines : list string) (r : Run) :
  sound h0 r -> sound h0 (for_lines options lines r).
Proof.
  revert r. induction lines as [|line lines IH]; intros r Hr; [exact Hr|].
  simpl. pose proof (for_body_sound h0 line r Hr) as Hb.
  destruct (for_body options line r) as [r' broke]. simpl in Hb.
  destruct broke; [exact Hb | now apply IH].
Qed.

Lemma while_loop_sound (h0 : Hook) (reads : list ReadResult) (decoder : Decoder)
      (buffer : string) (r : Run) :
  sound h0 r -> sound h0 (fst (while_loop options reads decoder buffer r)).
Proof.
  revert decoder buffer r.
  induction reads as [|[chunk|err] reads IH]; intros decoder buffer r Hr; simpl;
    destruct (cancelled r); try exact Hr.
  destruct (decode decoder chunk) as [text decoder'].
  apply IH. now apply for_lines_sound.
Qed.

Lemma try_connect_sound (net : FetchResult) (h : Hook) :
  sound h (fst (try_connect options net (start h))).
Proof.
  pose proof (sound_start h) as Hs.
  destruct net as [response|err]; simpl; [|exact Hs].
  destruct (ok response); simpl; [|exact Hs].
  assert (Hc : sound h (start h ;> setIsConnected true)) by (apply sound_step; [exact Hs | exact I]).
  destruct (body response); [|exact Hc].
  now apply while_loop_sound.
Qed.

(** The loop throws only when a read rejects. *)
Lemma while_loop_throws (reads : list ReadResult) (decoder : Decoder)
      (buffer : string) (r r' : Run) (err : JS.Error) :
  while_loop options reads decoder buffer r = (r', Some err) ->
  exists chunks rest, reads = (map Resolves chunks ++ Rejects err :: rest)%list.
Proof.
  revert decoder buffer r.
  induction reads as [|[chunk|e] reads IH]; intros decoder buffer r; simpl;
    destruct (cancelled r); try discriminate.
  - destruct (decode decoder chunk) as [text decoder'].
    intros H. apply IH in H as (chunks & rest & ->).
    now exists (chunk :: chunks), rest.
  - intros H. injection H as _ <-. now exists [], reads.
Qed.

(** What the outer [try] throws is a failure of the transport. *)
Lemma try_connect_throws (net : FetchResult) (h : Hook) (r : Run) (err : JS.Error) :
  try_connect options net (start h) = (r, Some err) -> Failure net err.
Proof.
  destruct net as [response|e]; simpl.
  - destruct (ok response) eqn:Hok; simpl.
    + destruct (body response) as [reads|] eqn:Hbody.
      * intros H. apply while_loop_throws in H as (chunks & rest & ->).
        now apply read_rejected with (chunks := chunks) (rest := rest).
      * intros H. injection H as _ <-. now apply no_body.
    + intros H. injection H as _ <-. now apply request_failed.
  - intros H. injection H as _ <-. apply fetch_rejected.
Qed.

Lemma isComplete_replay (calls : list Call) (h : Hook) :
  isComplete (replay calls h) = true ->
  isComplete h = true \/ In (setIsComplete true) calls.
Proof.
  revert h. induction calls as [|c calls IH]; intros h; simpl; [now left|].
  intros H. apply IH in H as [H | H]; [|now right; right].
  destruct c; simpl in H; try (now left).
  subst. right. now left.
Qed.

(** *** One iteration, by the kind of line *)

Lemma for_body_data_line (payload : string) (r : Run) :
  for_body options (data_line payload) r =
  match try_block options payload r with
  | (r', Normal) => (r', false)
  | (r', Break) => (r', true)
  | (r', Throw err) =>
      (r' ;> console_error "Failed to parse SSE message:" err
          ;> setError (JS.Str "Failed to parse progress update")
          ;> reader_cancel, true)
  end.
Proof. unfold for_body. now rewrite data_line_starts, data_line_payload. Qed.

Lemma for_body_unparsable (payload : string) (err : JS.Error) (r : Run) :
  JSON_parse payload = inr err ->
  for_body options (data_line payload) r =
  (r ;> console_error "Failed to parse SSE message:" err
     ;> setError (JS.Str "Failed to parse progress update")
     ;> reader_cancel, true).
Proof. intros H. rewrite for_body_data_line. unfold try_block. now rewrite H. Qed.

Lemma for_body_error (payload : string) (update : JS.Value) (r : Run) :
  JSON_parse payload = inl update ->
  has_type update "error" = true ->
  for_body options (data_line payload) r =
  (perform_all
     ([setData update;
       setError (JS.or_else (JS.prop update "message") (JS.Str "Analysis failed"));
       reader_cancel] ++
      (if onError options
       then call_onError (JS.or_else (JS.prop update "message") (JS.Str "Analysis failed"))
              :: after_callback
                   (onError_throws options
                      (JS.or_else (JS.prop update "message") (JS.Str "Analysis failed")))
       else []))%list r,
   true).
Proof.
  intros H He. rewrite for_body_data_line. unfold try_block. rewrite H.
  pose proof (has_type_exclusive update "error" "complete" He) as Hc.
  unfold has_type in He, Hc. rewrite Hc, He by discriminate.
  destruct update; try discriminate.
  destruct (onError options); [|reflexivity].
  now destruct (onError_throws options
                  (JS.or_else (JS.prop (JS.Object props) "message")
                              (JS.Str "Analysis failed"))).
Qed.

Lemma for_body_complete (payload : string) (update : JS.Value) (r : Run) :
  JSON_parse payload = inl update ->
  has_type update "complete" = true ->
  for_body options (data_line payload) r =
  (perform_all
     ([setData update; setIsComplete true; reader_cancel] ++
      (if onComplete options && JS.truthy (JS.prop update "result")
       then match JS.prop update "result" with
            | Some result =>
                call_onComplete result
                  :: after_callback (onComplete_throws options result)
            | None => []
            end
       else []))%list r,
   true).
Proof.
  intros H Hc. rewrite for_body_data_line. unfold try_block. rewrite H.
  unfold has_type in Hc. rewrite Hc.
  destruct update; try discriminate.
  destruct (onComplete options && JS.truthy (JS.prop (JS.Object props) "result"));
    [destruct (JS.prop (JS.Object props) "result") as [result|];
     [destruct (onComplete_throws options result)|]|]; reflexivity.
Qed.

Lemma stops_data_line (payload : string) :
  stops (data_line payload) =
  match JSON_parse payload with
  | inr _ => true
  | inl JS.Null => true
  | inl update => has_type update "complete" || has_type update "error"
  end.
Proof. unfold stops. now rewrite data_line_starts, data_line_payload. Qed.

Lemma updates_of_data_line (payload : string) (update : JS.Value) :
  JSON_parse payload = inl update -> updates_of [data_line payload] = [update].
Proof. intros H. simpl. now rewrite data_line_starts, data_line_payload, H. Qed.

(** A session whose body runs into a line that stops the reader ends there,
    without entering the [catch]. *)
Lemma connectSSE_stops (response : Response) (chunks : list Chunk)
      (rest : list ReadResult) (h : Hook) (pre post : list string) (line : string) :
  ok response = true ->
  body response = Some (map Resolves chunks ++ rest)%list ->
  complete_lines (decoded chunks) = (pre ++ line :: post)%list ->
  Forall (fun l => stops l = false) pre ->
  stops line = true ->
  connectSSE options isComplete_captured (FetchResolves response) h =
  fst (for_body options line
         (perform_all (setIsConnected true :: map setData (updates_of pre)) (start h))).
Proof.
  intros Hok Hbody Hlines Hpre Hline. unfold connectSSE.
  now rewrite (session_stops _ _ _ _ _ _ _ Hok Hbody Hlines Hpre Hline).
Qed.

End Sessions.

(** ** The specification *)

Section Specification.

Context {P : Platform}.
Variable options : UseSSEOptions.
Variable isComplete_captured : bool.

(** C1. A well-formed stream is a run of [progress] frames followed by one
    [complete] or [error] frame, each on a line of its own, written
    [data: <json>] and ended by a line feed. However the bytes of such a
    stream are cut into chunks (also in the middle of a frame), the reader
    hands to [setData] every progress frame in order, then the terminal
    frame, each exactly once, and nothing else, whatever the reads after the
    terminal frame would deliver. *)
Theorem frames_emitted_in_order
  (response : Response) (chunks : list Chunk) (rest : list ReadResult) (h : Hook)
  (progress : list (string * JS.Value)) (payload : string) (terminal : JS.Value) :
  ok response = true ->
  body response = Some (map Resolves chunks ++ rest)%list ->
  Forall (fun f => no_LF (fst f) = true /\
                   JSON_parse (fst f) = inl (snd f) /\
                   has_type (snd f) "progress" = true) progress ->
  no_LF payload = true ->
  JSON_parse payload = inl terminal ->
  has_type terminal "complete" = true \/ has_type terminal "error" = true ->
  decoded chunks = join (map data_line (map fst progress ++ [payload])) ->
  emitted (trace (connectSSE options isComplete_captured (FetchResolves response) h))
  = (map snd progress ++ [terminal])%list.
Proof.
  intros Hok Hbody Hprogress Hnl Hparse Hterminal Hwire.
  assert (Hlines : complete_lines (decoded chunks)
                   = (map data_line (map fst progress) ++ data_line payload :: [])%list).
  { unfold complete_lines. rewrite Hwire, map_app, scan_join; [reflexivity|].
    apply Forall_app. split.
    - rewrite map_map. apply Forall_map.
      eapply Forall_impl; [|exact Hprogress]. intros f (Hf & _). exact Hf.
    - repeat constructor. exact Hnl. }
  assert (Hpre : Forall (fun l => stops l = false) (map data_line (map fst progress))).
  { rewrite map_map. apply Forall_map.
    eapply Forall_impl; [|exact Hprogress]. intros [p v] (_ & Hp & Ht). simpl in *.
    rewrite stops_data_line, Hp.
    rewrite (has_type_exclusive v "progress" "complete" Ht) by discriminate.
    rewrite (has_type_exclusive v "progress" "error" Ht) by discriminate.
    now destruct v. }
  assert (Hups : updates_of (map data_line (map fst progress)) = map snd progress).
  { clear - Hprogress. induction Hprogress as [|[p v] fs (_ & Hp & _) _ IH]; [reflexivity|].
    simpl in Hp.
    change (updates_of ([data_line p] ++ map data_line (map fst fs))%list
            = v :: map snd fs).
    now rewrite updates_of_app, IH, (updates_of_data_line _ _ Hp). }
  assert (Hstop : stops (data_line payload) = true).
  { rewrite stops_data_line, Hparse.
    destruct Hterminal as [Ht | Ht]; rewrite Ht; destruct terminal;
      try discriminate; auto using orb_true_r. }
  rewrite (connectSSE_stops _ _ _ _ _ _ _ _ _ Hok Hbody Hlines Hpre Hstop), Hups.
  destruct Hterminal as [Ht | Ht].
  - rewrite (for_body_complete _ _ _ _ Hparse Ht). cbn [fst].
    rewrite !trace_perform_all, !emitted_app. cbn [emitted trace start app].
    rewrite emitted_setData.
    destruct (onComplete options && JS.truthy (JS.prop terminal "result"));
      [destruct (JS.prop terminal "result") as [result|];
       [destruct (onComplete_throws options result)|]|]; reflexivity.
  - rewrite (for_body_error _ _ _ _ Hparse Ht). cbn [fst].
    rewrite !trace_perform_all, !emitted_app. cbn [emitted trace start app].
    rewrite emitted_setData.
    destruct (onError options);
      [destruct (onError_throws options
                   (JS.or_else (JS.prop terminal "message") (JS.Str "Analysis failed")))|];
      reflexivity.
Qed.

(** C2 (amended). A [data: ] line whose payload parses to a value other
    than [null] whose [type] is neither [complete] nor [error] (an unknown
    type, or [progress]) is handed to [setData] like any other frame; nothing
    else happens: [setData] is the only call made, so no error is raised, no
    callback is invoked and the read is not cancelled, and the loop goes on
    with the lines that follow. *)
Theorem unknown_type_frame_is_stored_and_skipped
  (payload : string) (update : JS.Value) (following : list string) (r : Run) :
  JSON_parse payload = inl update ->
  update <> JS.Null ->
  has_type update "complete" = false ->
  has_type update "error" = false ->
  for_body options (data_line payload) r = (r ;> setData update, false) /\
  emitted (trace (fst (for_body options (data_line payload) r)))
  = (emitted (trace r) ++ [update])%list /\
  error (hook (fst (for_body options (data_line payload) r))) = error (hook r) /\
  cancelled (fst (for_body options (data_line payload) r)) = cancelled r /\
  (forall c, In c (trace (fst (for_body options (data_line payload) r))) ->
             In c (trace r) \/ c = setData update) /\
  for_lines options (data_line payload :: following) r
  = for_lines options following (r ;> setData update).
Proof.
  intros Hparse Hnull Hc He.
  assert (Hb : for_body options (data_line payload) r = (r ;> setData update, false)).
  { rewrite for_body_data_line. unfold try_block. rewrite Hparse.
    unfold has_type in Hc, He. rewrite Hc, He. now destruct update. }
  rewrite Hb. cbn [fst]. repeat split.
  - simpl. now rewrite emitted_app.
  - simpl. intros c Hin. apply in_app_or in Hin as [Hin | [<- | []]]; auto.
  - simpl for_lines. now rewrite Hb.
Qed.

(** The run of a session stopped by a payload that does not parse. *)
Lemma parse_failure_run
  (response : Response) (chunks : list Chunk) (rest : list ReadResult) (h : Hook)
  (pre post : list string) (payload : string) (err : JS.Error) :
  ok response = true ->
  body response = Some (map Resolves chunks ++ rest)%list ->
  complete_lines (decoded chunks) = (pre ++ data_line payload :: post)%list ->
  Forall (fun l => stops l = false) pre ->
  JSON_parse payload = inr err ->
  connectSSE options isComplete_captured (FetchResolves response) h
  = perform_all
      (setIsConnected true :: map setData (updates_of pre) ++
       [console_error "Failed to parse SSE message:" err;
        setError (JS.Str "Failed to parse progress update");
        reader_cancel])%list
      (start h).
Proof.
  intros Hok Hbody Hlines Hpre Hparse.
  assert (Hstop : stops (data_line payload) = true)
    by now rewrite stops_data_line, Hparse.
  rewrite (connectSSE_stops _ _ _ _ _ _ _ _ _ Hok Hbody Hlines Hpre Hstop).
  rewrite (for_body_unparsable _ _ _ _ Hparse). cbn [fst].
  change (setIsConnected true :: map setData (updates_of pre) ++ ?tail)%list
    with ((setIsConnected true :: map setData (updates_of pre)) ++ tail)%list.
  now rewrite perform_all_app.
Qed.

Lemma hook_perform_all (calls : list Call) (h : Hook) :
  hook (perform_all calls (start h)) = replay calls h.
Proof.
  assert (H : forall r, hook (perform_all calls r) = replay calls (hook r)).
  { induction calls as [|c calls IH]; intros r; [reflexivity|]. simpl. now rewrite IH. }
  apply H.
Qed.

Lemma replay_app (a b : list Call) (h : Hook) :
  replay (a ++ b)%list h = replay b (replay a h).
Proof. apply fold_left_app. Qed.

(** A session that has connected and stored some frames, then made the calls
    of [tail]. *)
Lemma run_shape (updates : list JS.Value) (tail : list Call) (h : Hook) :
  perform_all (setIsConnected true :: map setData updates ++ tail)%list (start h)
  = perform_all tail (perform_all (map setData updates) (start h ;> setIsConnected true)).
Proof.
  change (setIsConnected true :: map setData updates ++ tail)%list
    with (([setIsConnected true] ++ map setData updates) ++ tail)%list.
  now rewrite !perform_all_app.
Qed.

Lemma run_shape_nil (updates : list JS.Value) (h : Hook) :
  perform_all (setIsConnected true :: map setData updates)%list (start h)
  = perform_all (map setData updates) (start h ;> setIsConnected true).
Proof. reflexivity. Qed.

(** C3 (amended). When the first line that stops the reader is a [data: ]
    line whose payload is not valid JSON, the session sets the error state
    once, to the fixed text [Failed to parse progress update], cancels the
    read and ends: the lines and the reads that follow are not looked at, and
    [onError] is not invoked. *)
Theorem parse_failure_is_fatal
  (response : Response) (chunks : list Chunk) (rest : list ReadResult) (h : Hook)
  (pre post : list string) (payload : string) (err : JS.Error) :
  ok response = true ->
  body response = Some (map Resolves chunks ++ rest)%list ->
  complete_lines (decoded chunks) = (pre ++ data_line payload :: post)%list ->
  Forall (fun l => stops l = false) pre ->
  JSON_parse payload = inr err ->
  trace (connectSSE options isComplete_captured (FetchResolves response) h)
  = (setIsConnected true :: map setData (updates_of pre) ++
     [console_error "Failed to parse SSE message:" err;
      setError (JS.Str "Failed to parse progress update");
      reader_cancel])%list /\
  error (hook (connectSSE options isComplete_captured (FetchResolves response) h))
  = JS.Str "Failed to parse progress update" /\
  cancelled (connectSSE options isComplete_captured (FetchResolves response) h) = true.
Proof.
  intros Hok Hbody Hlines Hpre Hparse.
  rewrite (parse_failure_run _ _ _ _ _ _ _ _ Hok Hbody Hlines Hpre Hparse).
  split; [now rewrite trace_perform_all|].
  rewrite run_shape. split; reflexivity.
Qed.

(** *** Sessions that no line stops *)

Lemma quiet_run_fields (updates : list JS.Value) (h : Hook) :
  error (hook (perform_all (setIsConnected true :: map setData updates) (start h))) = error h /\
  isComplete (hook (perform_all (setIsConnected true :: map setData updates) (start h)))
  = isComplete h /\
  isConnected (hook (perform_all (setIsConnected true :: map setData updates) (start h)))
  = true /\
  cancelled (perform_all (setIsConnected true :: map setData updates) (start h)) = false.
Proof.
  rewrite run_shape_nil.
  destruct (perform_setData_fields updates (start h ;> setIsConnected true))
    as (He & Hc & Hn & Hx).
  rewrite He, Hc, Hn, Hx. repeat split.
Qed.

Lemma quiet_run_callbacks (updates : list JS.Value) (h : Hook) (c : Call) :
  In c (trace (perform_all (setIsConnected true :: map setData updates) (start h))) ->
  is_callback c = false.
Proof.
  rewrite trace_perform_all. simpl. intros [<- | Hin]; [reflexivity|].
  apply in_map_iff in Hin as (u & <- & _). reflexivity.
Qed.

Lemma while_loop_rejects (err : JS.Error) (rest : list ReadResult) (decoder : Decoder)
      (buffer : string) (r : Run) :
  cancelled r = false ->
  while_loop options (Rejects err :: rest) decoder buffer r = (r, Some err).
Proof. intros H. simpl. now rewrite H. Qed.

Lemma while_loop_done (decoder : Decoder) (buffer : string) (r : Run) :
  while_loop options [] decoder buffer r = (r, None).
Proof. simpl. now destruct (cancelled r). Qed.

Lemma quiet_session_rejects
  (response : Response) (chunks : list Chunk) (rest : list ReadResult) (h : Hook)
  (err : JS.Error) :
  ok response = true ->
  body response = Some (map Resolves chunks ++ Rejects err :: rest)%list ->
  Forall (fun l => stops l = false) (complete_lines (decoded chunks)) ->
  try_connect options (FetchResolves response) (start h)
  = (perform_all (setIsConnected true
                    :: map setData (updates_of (complete_lines (decoded chunks))))
                 (start h),
     Some err).
Proof.
  intros Hok Hbody Hq. rewrite (session_quiet _ _ _ _ _ Hok Hbody Hq).
  destruct (quiet_run_fields (updates_of (complete_lines (decoded chunks))) h)
    as (_ & _ & _ & Hx).
  now apply while_loop_rejects.
Qed.

Lemma quiet_session_ends
  (response : Response) (chunks : list Chunk) (h : Hook) :
  ok response = true ->
  body response = Some (map Resolves chunks) ->
  Forall (fun l => stops l = false) (complete_lines (decoded chunks)) ->
  try_connect options (FetchResolves response) (start h)
  = (perform_all (setIsConnected true
                    :: map setData (updates_of (complete_lines (decoded chunks))))
                 (start h),
     None).
Proof.
  intros Hok Hbody Hq. rewrite <- (app_nil_r (map Resolves chunks)) in Hbody.
  rewrite (session_quiet _ _ _ _ _ Hok Hbody Hq).
  apply while_loop_done.
Qed.

(** C4. The caller aborts while the stream is being read, before any line
    has stopped the reader: the pending read rejects with an [AbortError].
    The session then ends with the frames read so far and nothing more:
    whatever the stream would still deliver is not read, the error state and
    [isComplete] are left as they were and no callback is invoked. The same
    holds for an abort while the request is being made, and the cleanup that
    goes with the abort only clears [isConnected]. A rejection that is not an
    abort is not silent: it sets the error state. *)
Theorem abort_is_silent
  (response : Response) (chunks : list Chunk) (rest : list ReadResult) (h : Hook)
  (err : JS.Error) :
  ok response = true ->
  body response = Some (map Resolves chunks ++ Rejects err :: rest)%list ->
  JS.name err = "AbortError" ->
  Forall (fun l => stops l = false) (complete_lines (decoded chunks)) ->
  connectSSE options isComplete_captured (FetchResolves response) h
  = perform_all (setIsConnected true
                   :: map setData (updates_of (complete_lines (decoded chunks))))
                (start h) /\
  (forall c, In c (trace (connectSSE options isComplete_captured (FetchResolves response) h)) ->
             is_callback c = false) /\
  error (hook (connectSSE options isComplete_captured (FetchResolves response) h)) = error h /\
  isComplete (hook (connectSSE options isComplete_captured (FetchResolves response) h))
  = isComplete h /\
  connectSSE options isComplete_captured (FetchRejects err) h = start h /\
  cleanup (hook (connectSSE options isComplete_captured (FetchResolves response) h))
  = replay (setIsConnected true
              :: map setData (updates_of (complete_lines (decoded chunks)))
              ++ [setIsConnected false])%list h /\
  (forall failure, JS.name failure <> "AbortError" ->
     error (hook (connectSSE options isComplete_captured
                    (FetchResolves
                       (with_body response (map Resolves chunks ++ Rejects failure :: rest)%list))
                    h))
     = message_or_default failure).
Proof.
  intros Hok Hbody Habort Hq.
  assert (Hrun : connectSSE options isComplete_captured (FetchResolves response) h
                 = perform_all (setIsConnected true
                                  :: map setData (updates_of (complete_lines (decoded chunks))))
                               (start h)).
  { unfold connectSSE. rewrite (quiet_session_rejects _ _ _ _ _ Hok Hbody Hq).
    now rewrite Habort. }
  rewrite Hrun.
  destruct (quiet_run_fields (updates_of (complete_lines (decoded chunks))) h)
    as (He & Hc & _ & _).
  repeat split.
  - apply quiet_run_callbacks.
  - exact He.
  - exact Hc.
  - unfold connectSSE. simpl. now rewrite Habort.
  - unfold cleanup. rewrite hook_perform_all.
    change (setIsConnected true
              :: map setData (updates_of (complete_lines (decoded chunks)))
              ++ [setIsConnected false])%list
      with ((setIsConnected true
               :: map setData (updates_of (complete_lines (decoded chunks))))
              ++ [setIsConnected false])%list.
    now rewrite replay_app.
  - intros failure Hname. unfold connectSSE.
    rewrite (quiet_session_rejects (with_body response _) chunks rest h failure Hok eq_refl Hq).
    apply String.eqb_neq in Hname. rewrite Hname.
    destruct (onError options && negb isComplete_captured); reflexivity.
Qed.

(** C9 (amended). The stream ends (a read reports [done]) before any line
    has stopped the reader: no [complete] or [error] frame, and no [data: ]
    line whose payload is unparsable or [null]. The session ends with the
    frames of the complete lines and nothing more: the error state and [isComplete] are left as they were, no
    callback is invoked, and the unfinished last line is dropped without
    being parsed: two streams with the same complete lines give the same
    run. *)
Theorem clean_end_is_silent
  (response : Response) (chunks : list Chunk) (h : Hook) :
  ok response = true ->
  body response = Some (map Resolves chunks) ->
  Forall (fun l => stops l = false) (complete_lines (decoded chunks)) ->
  connectSSE options isComplete_captured (FetchResolves response) h
  = perform_all (setIsConnected true
                   :: map setData (updates_of (complete_lines (decoded chunks))))
                (start h) /\
  (forall c, In c (trace (connectSSE options isComplete_captured (FetchResolves response) h)) ->
             is_callback c = false) /\
  error (hook (connectSSE options isComplete_captured (FetchResolves response) h)) = error h /\
  isComplete (hook (connectSSE options isComplete_captured (FetchResolves response) h))
  = isComplete h /\
  (forall chunks',
     complete_lines (decoded chunks') = complete_lines (decoded chunks) ->
     connectSSE options isComplete_captured
       (FetchResolves (with_body response (map Resolves chunks'))) h
     = connectSSE options isComplete_captured (FetchResolves response) h).
Proof.
  intros Hok Hbody Hq.
  assert (Hrun : connectSSE options isComplete_captured (FetchResolves response) h
                 = perform_all (setIsConnected true
                                  :: map setData (updates_of (complete_lines (decoded chunks))))
                               (start h)).
  { unfold connectSSE. now rewrite (quiet_session_ends _ _ _ Hok Hbody Hq). }
  rewrite Hrun.
  destruct (quiet_run_fields (updates_of (complete_lines (decoded chunks))) h)
    as (He & Hc & _ & _).
  repeat split.
  - apply quiet_run_callbacks.
  - exact He.
  - exact Hc.
  - intros chunks' Hsame. unfold connectSSE.
    rewrite <- Hsame in Hq.
    rewrite (quiet_session_ends (with_body response _) chunks' h Hok eq_refl Hq).
    now rewrite Hsame.
Qed.

(** *** What the [catch] adds *)

(** The calls of the outer [catch] for a thrown error that is not an abort. *)
Lemma connectSSE_cases (net : FetchResult) (h : Hook) :
  connectSSE options isComplete_captured net h = fst (try_connect options net (start h)) \/
  exists err,
    snd (try_connect options net (start h)) = Some err /\
    JS.name err <> "AbortError" /\
    connectSSE options isComplete_captured net h
    = perform_all
        ([console_error "SSE connection error:" err;
          setError (message_or_default err);
          setIsConnected false] ++
         (if onError options && negb isComplete_captured
          then [call_onError (message_or_default err)]
          else []))%list
        (fst (try_connect options net (start h))).
Proof.
  unfold connectSSE.
  destruct (try_connect options net (start h)) as [r [err|]]; [|now left].
  destruct (String.eqb (JS.name err) "AbortError") eqn:Hname; [now left|].
  right. exists err. apply String.eqb_neq in Hname. repeat split; [exact Hname|].
  now destruct (onError options && negb isComplete_captured).
Qed.

(** C5. [isComplete] becomes true only in a session that has parsed, and
    handed to [setData], a frame of type [complete]; and on such a frame the
    reader sets [isComplete], cancels the read and leaves the loop: whatever
    reads remain, none is consumed. *)
Theorem completion_only_on_complete_frame
  (net : FetchResult) (h : Hook) (payload : string) (update : JS.Value) (r : Run) :
  isComplete h = false ->
  JSON_parse payload = inl update ->
  has_type update "complete" = true ->
  (isComplete (hook (connectSSE options isComplete_captured net h)) = true ->
   exists frame,
     In frame (emitted (trace (connectSSE options isComplete_captured net h))) /\
     has_type frame "complete" = true) /\
  isComplete (hook (fst (for_body options (data_line payload) r))) = true /\
  cancelled (fst (for_body options (data_line payload) r)) = true /\
  snd (for_body options (data_line payload) r) = true /\
  (forall reads decoder buffer,
     while_loop options reads decoder buffer (fst (for_body options (data_line payload) r))
     = (fst (for_body options (data_line payload) r), None)).
Proof.
  intros Hh Hparse Htype.
  assert (Hcancel : cancelled (fst (for_body options (data_line payload) r)) = true).
  { rewrite (for_body_complete _ _ _ _ Hparse Htype). cbn [fst].
    rewrite perform_all_app. simpl.
    destruct (onComplete options && JS.truthy (JS.prop update "result"));
      [destruct (JS.prop update "result") as [result|];
       [destruct (onComplete_throws options result)|]|]; reflexivity. }
  split; [|split; [|split; [exact Hcancel | split]]].
  - intros Hdone.
    destruct (try_connect_sound options net h) as [Hreplay Horder].
    assert (Hin : In (setIsComplete true)
                     (trace (fst (try_connect options net (start h))))).
    { destruct (connectSSE_cases net h) as [Heq | (err & _ & _ & Heq)];
        rewrite Heq in Hdone.
      - rewrite Hreplay in Hdone. apply isComplete_replay in Hdone as [Hd | Hd];
          [congruence | exact Hd].
      - assert (Hsame : isComplete (hook (fst (try_connect options net (start h)))) = true).
        { rewrite <- Hdone. rewrite perform_all_app.
          destruct (onError options && negb isComplete_captured); reflexivity. }
        rewrite Hreplay in Hsame. apply isComplete_replay in Hsame as [Hd | Hd];
          [congruence | exact Hd]. }
    destruct (Horder _ Hin) as [_ (frame & Hframe & Hcomplete)].
    exists frame. split; [|exact Hcomplete].
    destruct (connectSSE_cases net h) as [Heq | (err & _ & _ & Heq)]; rewrite Heq.
    + exact Hframe.
    + rewrite trace_perform_all, emitted_app. apply in_or_app. now left.
  - rewrite (for_body_complete _ _ _ _ Hparse Htype). cbn [fst].
    rewrite perform_all_app. simpl.
    destruct (onComplete options && JS.truthy (JS.prop update "result"));
      [destruct (JS.prop update "result") as [result|];
       [destruct (onComplete_throws options result)|]|]; reflexivity.
  - now rewrite (for_body_complete _ _ _ _ Hparse Htype).
  - intros reads decoder buffer. now apply while_loop_cancelled.
Qed.

(** X18. A response whose status is not 2xx makes the session fail before any
    frame is read: the error state becomes [HTTP <status>: <statusText>], a
    text that none of the fixed messages of the hook equals, and no frame is
    handed to [setData]. In a session whose effect captured [isComplete] as
    false (every first session), the [onError] callback, when supplied, is
    invoked with that text. *)
Theorem request_failure_is_reported (response : Response) (h : Hook) :
  ok response = false ->
  error (hook (connectSSE options isComplete_captured (FetchResolves response) h))
  = JS.Str ("HTTP " ++ show_nat (status response) ++ ": " ++ statusText response) /\
  ~ In ("HTTP " ++ show_nat (status response) ++ ": " ++ statusText response)
       ["Connection failed"; "No response body"; "Failed to parse progress update";
        "Analysis failed"] /\
  emitted (trace (connectSSE options isComplete_captured (FetchResolves response) h)) = [] /\
  (onError options = true ->
   isComplete_captured = false ->
   trace (connectSSE options isComplete_captured (FetchResolves response) h)
   = [console_error "SSE connection error:"
        (JS.new_Error ("HTTP " ++ show_nat (status response) ++ ": " ++ statusText response));
      setError (JS.Str ("HTTP " ++ show_nat (status response) ++ ": " ++ statusText response));
      setIsConnected false;
      call_onError
        (JS.Str ("HTTP " ++ show_nat (status response) ++ ": " ++ statusText response))]).
Proof.
  intros Hok. unfold connectSSE, try_connect. rewrite Hok. simpl negb. cbv iota.
  repeat split.
  - destruct (onError options && negb isComplete_captured); reflexivity.
  - simpl. intros [H | [H | [H | [H | []]]]]; discriminate.
  - destruct (onError options && negb isComplete_captured); reflexivity.
  - intros -> ->. reflexivity.
Qed.

(** The run of a session stopped by an [error] frame. *)
Lemma error_frame_run
  (response : Response) (chunks : list Chunk) (rest : list ReadResult) (h : Hook)
  (pre post : list string) (payload : string) (update : JS.Value) :
  ok response = true ->
  body response = Some (map Resolves chunks ++ rest)%list ->
  complete_lines (decoded chunks) = (pre ++ data_line payload :: post)%list ->
  Forall (fun l => stops l = false) pre ->
  JSON_parse payload = inl update ->
  has_type update "error" = true ->
  connectSSE options isComplete_captured (FetchResolves response) h
  = perform_all
      (setIsConnected true :: map setData (updates_of pre) ++
       [setData update;
        setError (JS.or_else (JS.prop update "message") (JS.Str "Analysis failed"));
        reader_cancel] ++
       (if onError options
        then call_onError (JS.or_else (JS.prop update "message") (JS.Str "Analysis failed"))
               :: after_callback
                    (onError_throws options
                       (JS.or_else (JS.prop update "message") (JS.Str "Analysis failed")))
        else []))%list
      (start h).
Proof.
  intros Hok Hbody Hlines Hpre Hparse Htype.
  assert (Hstop : stops (data_line payload) = true).
  { rewrite stops_data_line, Hparse, Htype. destruct update; auto using orb_true_r. }
  rewrite (connectSSE_stops _ _ _ _ _ _ _ _ _ Hok Hbody Hlines Hpre Hstop).
  rewrite (for_body_error _ _ _ _ Hparse Htype). cbn [fst].
  now rewrite run_shape.
Qed.

(** X19. When the first line that stops the reader is a frame of type [error],
    the session ends inside the read loop: the frame's [message], or
    [Analysis failed] when the message is absent (or falsy), is handed to
    [setError] and, when the callback was supplied, to [onError]; the read is
    cancelled and the outer [catch] is not entered, so the connection is not
    marked as failed. The call of [onError] sits inside the inner [try]: when
    it returns (or no callback was supplied) the error state at the end of
    the session is the frame's text; when it throws, the inner [catch] logs
    the exception, replaces the error state by
    [Failed to parse progress update] and cancels the read once more. *)
Theorem error_frame_is_terminal_outcome
  (response : Response) (chunks : list Chunk) (rest : list ReadResult) (h : Hook)
  (pre post : list string) (payload : string) (update : JS.Value) :
  ok response = true ->
  body response = Some (map Resolves chunks ++ rest)%list ->
  complete_lines (decoded chunks) = (pre ++ data_line payload :: post)%list ->
  Forall (fun l => stops l = false) pre ->
  JSON_parse payload = inl update ->
  has_type update "error" = true ->
  trace (connectSSE options isComplete_captured (FetchResolves response) h)
  = (setIsConnected true :: map setData (updates_of pre) ++
     [setData update;
      setError (JS.or_else (JS.prop update "message") (JS.Str "Analysis failed"));
      reader_cancel] ++
     (if onError options
      then call_onError (JS.or_else (JS.prop update "message") (JS.Str "Analysis failed"))
             :: after_callback
                  (onError_throws options
                     (JS.or_else (JS.prop update "message") (JS.Str "Analysis failed")))
      else []))%list /\
  cancelled (connectSSE options isComplete_captured (FetchResolves response) h) = true /\
  isConnected (hook (connectSSE options isComplete_captured (FetchResolves response) h)) = true /\
  snd (try_connect options (FetchResolves response) (start h)) = None /\
  ((onError options = true ->
    onError_throws options
      (JS.or_else (JS.prop update "message") (JS.Str "Analysis failed")) = None) ->
   error (hook (connectSSE options isComplete_captured (FetchResolves response) h))
   = JS.or_else (JS.prop update "message") (JS.Str "Analysis failed") /\
   (JS.prop update "message" = None ->
    error (hook (connectSSE options isComplete_captured (FetchResolves response) h))
    = JS.Str "Analysis failed")) /\
  (onError options = true ->
   onError_throws options
     (JS.or_else (JS.prop update "message") (JS.Str "Analysis failed")) <> None ->
   error (hook (connectSSE options isComplete_captured (FetchResolves response) h))
   = JS.Str "Failed to parse progress update").
Proof.
  intros Hok Hbody Hlines Hpre Hparse Htype.
  assert (Hstop : stops (data_line payload) = true).
  { rewrite stops_data_line, Hparse, Htype. destruct update; auto using orb_true_r. }
  rewrite (error_frame_run _ _ _ _ _ _ _ _ Hok Hbody Hlines Hpre Hparse Htype).
  split; [now rewrite trace_perform_all|].
  rewrite run_shape.
  destruct (perform_setData_fields (updates_of pre) (start h ;> setIsConnected true))
    as (_ & _ & Hconn & _).
  split; [|split; [|split; [|split]]].
  - destruct (onError options); [|reflexivity].
    destruct (onError_throws options _); reflexivity.
  - destruct (onError options); [|simpl; exact Hconn].
    destruct (onError_throws options _); simpl; exact Hconn.
  - now rewrite (session_stops _ _ _ _ _ _ _ _ Hok Hbody Hlines Hpre Hstop).
  - intros Hreturns.
    assert (Herr : error (hook (perform_all
               ([setData update;
                 setError (JS.or_else (JS.prop update "message") (JS.Str "Analysis failed"));
                 reader_cancel] ++
                (if onError options
                 then call_onError
                        (JS.or_else (JS.prop update "message") (JS.Str "Analysis failed"))
                        :: after_callback
                             (onError_throws options
                                (JS.or_else (JS.prop update "message")
                                            (JS.Str "Analysis failed")))
                 else []))%list
               (perform_all (map setData (updates_of pre)) (start h ;> setIsConnected true))))
            = JS.or_else (JS.prop update "message") (JS.Str "Analysis failed")).
    { destruct (onError options); [|reflexivity]. now rewrite (Hreturns eq_refl). }
    split; [exact Herr|].
    intros Hnone. rewrite Herr, Hnone. reflexivity.
  - intros -> Hthrows.
    destruct (onError_throws options _) as [err|]; [reflexivity|congruence].
Qed.

(** A call made by the read loop is also a call of the whole session. *)
Lemma loop_calls_kept (net : FetchResult) (h : Hook) (update : JS.Value) :
  In update (emitted (trace (fst (try_connect options net (start h))))) ->
  In update (emitted (trace (connectSSE options isComplete_captured net h))).
Proof.
  intros Hin. destruct (connectSSE_cases net h) as [-> | (err & _ & _ & ->)]; [exact Hin|].
  rewrite trace_perform_all, emitted_app. apply in_or_app. now left.
Qed.

(** C8. When the first line that stops the reader is a [complete] frame
    whose [result] is absent, [null] or otherwise falsy, the session sets
    [isComplete], cancels the read and ends without any call of [onComplete].
    In every session, [onComplete] is only ever called with the truthy
    [result] of a [complete] frame that was read. *)
Theorem complete_without_result_skips_onComplete
  (response : Response) (chunks : list Chunk) (rest : list ReadResult) (h : Hook)
  (pre post : list string) (payload : string) (update : JS.Value) :
  ok response = true ->
  body response = Some (map Resolves chunks ++ rest)%list ->
  complete_lines (decoded chunks) = (pre ++ data_line payload :: post)%list ->
  Forall (fun l => stops l = false) pre ->
  JSON_parse payload = inl update ->
  has_type update "complete" = true ->
  JS.truthy (JS.prop update "result") = false ->
  trace (connectSSE options isComplete_captured (FetchResolves response) h)
  = (setIsConnected true :: map setData (updates_of pre) ++
     [setData update; setIsComplete true; reader_cancel])%list /\
  isComplete (hook (connectSSE options isComplete_captured (FetchResolves response) h)) = true /\
  cancelled (connectSSE options isComplete_captured (FetchResolves response) h) = true /\
  (forall net' h' result,
     In (call_onComplete result) (trace (connectSSE options isComplete_captured net' h')) ->
     exists frame,
       In frame (emitted (trace (connectSSE options isComplete_captured net' h'))) /\
       has_type frame "complete" = true /\
       JS.prop frame "result" = Some result /\
       JS.truthy (Some result) = true).
Proof.
  intros Hok Hbody Hlines Hpre Hparse Htype Hfalsy.
  assert (Hstop : stops (data_line payload) = true).
  { rewrite stops_data_line, Hparse, Htype. now destruct update. }
  assert (Hrun : connectSSE options isComplete_captured (FetchResolves response) h
                 = perform_all
                     (setIsConnected true :: map setData (updates_of pre) ++
                      [setData update; setIsComplete true; reader_cancel])%list
                     (start h)).
  { rewrite (connectSSE_stops _ _ _ _ _ _ _ _ _ Hok Hbody Hlines Hpre Hstop).
    rewrite (for_body_complete _ _ _ _ Hparse Htype), Hfalsy, andb_false_r, app_nil_r.
    cbn [fst]. now rewrite run_shape. }
  rewrite Hrun.
  split; [now rewrite trace_perform_all|].
  rewrite run_shape. repeat split.
  intros net' h' result Hin.
  destruct (try_connect_sound options net' h') as [_ Horder].
  assert (Hloop : In (call_onComplete result)
                     (trace (fst (try_connect options net' (start h'))))).
  { destruct (connectSSE_cases net' h') as [Heq | (err & _ & _ & Heq)];
      rewrite Heq in Hin; [exact Hin|].
    rewrite trace_perform_all in Hin. apply in_app_or in Hin as [Hin | Hin]; [exact Hin|].
    exfalso. destruct (onError options && negb isComplete_captured);
      simpl in Hin; intuition discriminate. }
  destruct (Horder _ Hloop) as (frame & Hframe & Hrest).
  exists frame. split; [now apply loop_calls_kept | exact Hrest].
Qed.

(** C10. When the first line that stops the reader is a [data: ] line whose
    payload is not valid JSON, the error state is set but [onError] is not
    invoked. In every session, a call of [onError] passes either the message
    of an [error] frame that was read (or the default one), or the message of
    a failure of the transport that is not an abort: the rejection of
    [fetch], a status that is not 2xx, a missing body or the rejection of a
    read. *)
Theorem parse_failure_skips_onError
  (response : Response) (chunks : list Chunk) (rest : list ReadResult) (h : Hook)
  (pre post : list string) (payload : string) (err : JS.Error) :
  ok response = true ->
  body response = Some (map Resolves chunks ++ rest)%list ->
  complete_lines (decoded chunks) = (pre ++ data_line payload :: post)%list ->
  Forall (fun l => stops l = false) pre ->
  JSON_parse payload = inr err ->
  error (hook (connectSSE options isComplete_captured (FetchResolves response) h))
  = JS.Str "Failed to parse progress update" /\
  (forall msg,
     ~ In (call_onError msg)
          (trace (connectSSE options isComplete_captured (FetchResolves response) h))) /\
  (forall net' h' msg,
     In (call_onError msg) (trace (connectSSE options isComplete_captured net' h')) ->
     (exists frame,
        In frame (emitted (trace (connectSSE options isComplete_captured net' h'))) /\
        has_type frame "error" = true /\
        msg = JS.or_else (JS.prop frame "message") (JS.Str "Analysis failed")) \/
     (exists failure,
        Failure net' failure /\
        JS.name failure <> "AbortError" /\
        msg = message_or_default failure)).
Proof.
  intros Hok Hbody Hlines Hpre Hparse.
  rewrite (parse_failure_run _ _ _ _ _ _ _ _ Hok Hbody Hlines Hpre Hparse).
  split; [now rewrite run_shape|]. split.
  - intros msg. rewrite trace_perform_all. simpl. intros [H | H]; [discriminate|].
    apply in_app_or in H as [H | H].
    + apply in_map_iff in H as (u & H & _). discriminate.
    + simpl in H. intuition discriminate.
  - intros net' h' msg Hin.
    destruct (try_connect_sound options net' h') as [_ Horder].
    destruct (connectSSE_cases net' h') as [Heq | (failure & Hthrown & Hname & Heq)].
    + rewrite Heq in Hin. destruct (Horder _ Hin) as (frame & Hframe & Hrest).
      left. exists frame. split; [now apply loop_calls_kept | exact Hrest].
    + rewrite Heq, trace_perform_all in Hin. apply in_app_or in Hin as [Hin | Hin].
      * destruct (Horder _ Hin) as (frame & Hframe & Hrest).
        left. exists frame. split; [now apply loop_calls_kept | exact Hrest].
      * right. exists failure. split; [|split; [exact Hname|]].
        -- destruct (try_connect options net' (start h')) as [r thrown] eqn:Etry.
           simpl in Hthrown. subst thrown.
           exact (try_connect_throws options net' h' r failure Etry).
        -- destruct (onError options && negb isComplete_captured); simpl in Hin;
             intuition congruence.
Qed.

End Specification.

(** ** The theorems at sample streams *)

Lemma frames_emitted_in_order_witness :
  @decoded text_platform Sample.split_stream
  = join (map data_line [Sample.progress_payload; Sample.complete_payload]) /\
  emitted (trace (Sample.session (map Sample.chunk Sample.split_stream)))
  = [Sample.progress_frame; Sample.complete_frame].
Proof.
  split; [reflexivity|].
  apply (@frames_emitted_in_order text_platform Sample.options false
           (Sample.response 200 "OK" (Some (map Sample.chunk Sample.split_stream)))
           Sample.split_stream [] reset
           [(Sample.progress_payload, Sample.progress_frame)]
           Sample.complete_payload Sample.complete_frame);
    try reflexivity.
  - repeat constructor.
  - now left.
Defined.

Lemma unknown_type_frame_is_stored_and_skipped_witness :
  JSON_parse (Platform := text_platform) Sample.heartbeat_payload = inl Sample.heartbeat_frame /\
  for_lines (P := text_platform) Sample.options
    [data_line Sample.heartbeat_payload; data_line Sample.complete_payload] (start reset)
  = for_lines (P := text_platform) Sample.options
      [data_line Sample.complete_payload] (start reset ;> setData Sample.heartbeat_frame).
Proof.
  split; [reflexivity|].
  apply (@unknown_type_frame_is_stored_and_skipped text_platform Sample.options
           Sample.heartbeat_payload Sample.heartbeat_frame
           [data_line Sample.complete_payload] (start reset)
           eq_refl ltac:(discriminate) eq_refl eq_refl).
Defined.

Lemma parse_failure_is_fatal_witness :
  error (hook (Sample.session
                 [Sample.chunk (data_line Sample.progress_payload ++ nl ++
                                data_line Sample.malformed_payload ++ nl ++
                                data_line Sample.complete_payload ++ nl);
                  Sample.chunk (data_line Sample.complete_payload ++ nl)]))
  = JS.Str "Failed to parse progress update" /\
  cancelled (Sample.session
               [Sample.chunk (data_line Sample.progress_payload ++ nl ++
                              data_line Sample.malformed_payload ++ nl ++
                              data_line Sample.complete_payload ++ nl);
                Sample.chunk (data_line Sample.complete_payload ++ nl)])
  = true.
Proof.
  apply (@parse_failure_is_fatal text_platform Sample.options false
           (Sample.response 200 "OK" _)
           [data_line Sample.progress_payload ++ nl ++
            data_line Sample.malformed_payload ++ nl ++
            data_line Sample.complete_payload ++ nl]
           [Sample.chunk (data_line Sample.complete_payload ++ nl)] reset
           [data_line Sample.progress_payload] [data_line Sample.complete_payload]
           Sample.malformed_payload Json.SyntaxError);
    try reflexivity.
  repeat constructor.
Defined.

Lemma abort_is_silent_witness :
  trace (Sample.session
           [Sample.chunk (data_line Sample.progress_payload ++ nl);
            Rejects Sample.AbortError;
            Sample.chunk (data_line Sample.complete_payload ++ nl)])
  = [setIsConnected true; setData Sample.progress_frame] /\
  error (hook (Sample.session
                 [Sample.chunk (data_line Sample.progress_payload ++ nl);
                  Rejects Sample.AbortError;
                  Sample.chunk (data_line Sample.complete_payload ++ nl)]))
  = JS.Null.
Proof.
  assert (Hlines : complete_lines
                     (decoded (P := text_platform) [data_line Sample.progress_payload ++ nl])
                   = [data_line Sample.progress_payload]) by reflexivity.
  assert (Hquiet : Forall (fun l => stops (P := text_platform) l = false)
                          (complete_lines
                             (decoded (P := text_platform)
                                      [data_line Sample.progress_payload ++ nl])))
    by (rewrite Hlines; repeat constructor).
  pose proof (@abort_is_silent text_platform Sample.options false
              (Sample.response 200 "OK"
                 (Some [Sample.chunk (data_line Sample.progress_payload ++ nl);
                        Rejects Sample.AbortError;
                        Sample.chunk (data_line Sample.complete_payload ++ nl)]))
              [data_line Sample.progress_payload ++ nl]
              [Sample.chunk (data_line Sample.complete_payload ++ nl)] reset
              Sample.AbortError eq_refl eq_refl eq_refl Hquiet)
    as (Hrun & _ & Herror & _).
  split; [|exact Herror].
  etransitivity; [exact (f_equal trace Hrun)|]. vm_compute. reflexivity.
Defined.

Lemma clean_end_is_silent_witness :
  trace (Sample.session
           [Sample.chunk (data_line Sample.progress_payload ++ nl ++
                          data_line Sample.complete_payload)])
  = [setIsConnected true; setData Sample.progress_frame] /\
  isComplete (hook (Sample.session
                      [Sample.chunk (data_line Sample.progress_payload ++ nl ++
                                     data_line Sample.complete_payload)]))
  = false.
Proof.
  assert (Hlines : complete_lines
                     (decoded (P := text_platform)
                              [data_line Sample.progress_payload ++ nl ++
                               data_line Sample.complete_payload])
                   = [data_line Sample.progress_payload]) by reflexivity.
  assert (Hquiet : Forall (fun l => stops (P := text_platform) l = false)
                          (complete_lines
                             (decoded (P := text_platform)
                                      [data_line Sample.progress_payload ++ nl ++
                                       data_line Sample.complete_payload])))
    by (rewrite Hlines; repeat constructor).
  pose proof (@clean_end_is_silent text_platform Sample.options false
              (Sample.response 200 "OK"
                 (Some [Sample.chunk (data_line Sample.progress_payload ++ nl ++
                                      data_line Sample.complete_payload)]))
              [data_line Sample.progress_payload ++ nl ++ data_line Sample.complete_payload]
              reset eq_refl eq_refl Hquiet)
    as (Hrun & _ & _ & Hcomplete & _).
  split; [|exact Hcomplete].
  etransitivity; [exact (f_equal trace Hrun)|]. vm_compute. reflexivity.
Defined.

Lemma completion_only_on_complete_frame_witness :
  (exists frame,
     In frame (emitted (trace (Sample.session
                                 [Sample.chunk (data_line Sample.complete_payload ++ nl)]))) /\
     has_type frame "complete" = true) /\
  while_loop (P := text_platform) Sample.options
    [Sample.chunk (data_line Sample.progress_payload ++ nl)] tt EmptyString
    (fst (for_body (P := text_platform) Sample.options
            (data_line Sample.complete_payload) (start reset)))
  = (fst (for_body (P := text_platform) Sample.options
            (data_line Sample.complete_payload) (start reset)),
     None).
Proof.
  pose proof (@completion_only_on_complete_frame text_platform Sample.options false
                (@FetchResolves text_platform
                   (Sample.response 200 "OK"
                      (Some [Sample.chunk (data_line Sample.complete_payload ++ nl)])))
                reset
                Sample.complete_payload Sample.complete_frame (start reset)
                eq_refl eq_refl eq_refl)
    as (Honly & _ & _ & _ & Hstop).
  split; [apply Honly; vm_compute; reflexivity | apply Hstop].
Defined.

Lemma request_failure_is_reported_witness :
  error (hook (@connectSSE text_platform Sample.options false
                 (@FetchResolves text_platform
                    (Sample.response 500 "Internal Server Error" None)) reset))
  = JS.Str "HTTP 500: Internal Server Error" /\
  trace (@connectSSE text_platform Sample.options false
           (@FetchResolves text_platform
              (Sample.response 500 "Internal Server Error" None)) reset)
  = [console_error "SSE connection error:" (JS.new_Error "HTTP 500: Internal Server Error");
     setError (JS.Str "HTTP 500: Internal Server Error");
     setIsConnected false;
     call_onError (JS.Str "HTTP 500: Internal Server Error")].
Proof.
  pose proof (@request_failure_is_reported text_platform Sample.options false
                (Sample.response 500 "Internal Server Error" None) reset eq_refl)
    as (Herror & _ & _ & Hcalls).
  split; [exact Herror | exact (Hcalls eq_refl eq_refl)].
Defined.

Lemma error_frame_is_terminal_outcome_witness :
  error (hook (Sample.session
                 [Sample.chunk (data_line Sample.progress_payload ++ nl ++
                                data_line Sample.error_payload ++ nl);
                  Rejects Sample.NetworkError]))
  = JS.Str "DrugBank unavailable" /\
  isConnected (hook (Sample.session
                       [Sample.chunk (data_line Sample.progress_payload ++ nl ++
                                      data_line Sample.error_payload ++ nl);
                        Rejects Sample.NetworkError]))
  = true.
Proof.
  pose proof (@error_frame_is_terminal_outcome text_platform Sample.options false
                (Sample.response 200 "OK"
                   (Some [Sample.chunk (data_line Sample.progress_payload ++ nl ++
                                        data_line Sample.error_payload ++ nl);
                          Rejects Sample.NetworkError]))
                [data_line Sample.progress_payload ++ nl ++
                 data_line Sample.error_payload ++ nl]
                [Rejects Sample.NetworkError] reset
                [data_line Sample.progress_payload] [] Sample.error_payload Sample.error_frame
                eq_refl eq_refl eq_refl
                (Forall_cons (data_line Sample.progress_payload) eq_refl (Forall_nil _))
                eq_refl eq_refl)
    as (_ & _ & Hconnected & _ & Hreturns & _).
  split; [exact (proj1 (Hreturns (fun _ => eq_refl))) | exact Hconnected].
Defined.

Lemma complete_without_result_skips_onComplete_witness :
  trace (Sample.session
           [Sample.chunk (data_line Sample.progress_payload ++ nl ++
                          data_line Sample.bare_complete_payload ++ nl)])
  = [setIsConnected true; setData Sample.progress_frame;
     setData Sample.bare_complete_frame; setIsComplete true; reader_cancel] /\
  isComplete (hook (Sample.session
                      [Sample.chunk (data_line Sample.progress_payload ++ nl ++
                                     data_line Sample.bare_complete_payload ++ nl)]))
  = true.
Proof.
  pose proof (@complete_without_result_skips_onComplete text_platform Sample.options false
                (Sample.response 200 "OK"
                   (Some [Sample.chunk (data_line Sample.progress_payload ++ nl ++
                                        data_line Sample.bare_complete_payload ++ nl)]))
                [data_line Sample.progress_payload ++ nl ++
                 data_line Sample.bare_complete_payload ++ nl]
                [] reset
                [data_line Sample.progress_payload] []
                Sample.bare_complete_payload Sample.bare_complete_frame
                eq_refl eq_refl eq_refl
                (Forall_cons (data_line Sample.progress_payload) eq_refl (Forall_nil _))
                eq_refl eq_refl eq_refl)
    as (Htrace & Hdone & _).
  split; [|exact Hdone].
  etransitivity; [exact Htrace|]. vm_compute. reflexivity.
Defined.

Lemma parse_failure_skips_onError_witness :
  error (hook (Sample.session
                 [Sample.chunk (data_line Sample.progress_payload ++ nl ++
                                data_line Sample.malformed_payload ++ nl)]))
  = JS.Str "Failed to parse progress update" /\
  ~ In (call_onError (JS.Str "Failed to parse progress update"))
       (trace (Sample.session
                 [Sample.chunk (data_line Sample.progress_payload ++ nl ++
                                data_line Sample.malformed_payload ++ nl)])).
Proof.
  pose proof (@parse_failure_skips_onError text_platform Sample.options false
                (Sample.response 200 "OK"
                   (Some [Sample.chunk (data_line Sample.progress_payload ++ nl ++
                                        data_line Sample.malformed_payload ++ nl)]))
                [data_line Sample.progress_payload ++ nl ++
                 data_line Sample.malformed_payload ++ nl]
                [] reset
                [data_line Sample.progress_payload] []
                Sample.malformed_payload Json.SyntaxError
                eq_refl eq_refl eq_refl
                (Forall_cons (data_line Sample.progress_payload) eq_refl (Forall_nil _))
                eq_refl)
    as (Herror & Hnone & _).
  split; [exact Herror | apply Hnone].
Defined.

(** ** Where the specification and the code part *)

(** C2, as stated, fails: a frame of an unknown type is handed to [setData],
    and a payload that is valid JSON but [null] raises the parse-failure
    error. *)
Lemma unknown_type_frame_is_emitted :
  emitted (trace (Sample.session [Sample.chunk (data_line Sample.heartbeat_payload ++ nl)]))
  = [Sample.heartbeat_frame] /\
  JSON_parse (Platform := text_platform) "null" = inl JS.Null /\
  error (hook (Sample.session [Sample.chunk (data_line "null" ++ nl)]))
  = JS.Str "Failed to parse progress update".
Proof. repeat split; vm_compute; reflexivity. Qed.

(** C3, as stated, fails: a malformed line that follows a terminal frame
    raises no error at all, and an [error] frame can carry the very text of
    the parse-failure message. *)
Lemma parse_failure_not_always_surfaced :
  error (hook (Sample.session
                 [Sample.chunk (data_line Sample.complete_payload ++ nl ++
                                data_line Sample.malformed_payload ++ nl)]))
  = JS.Null /\
  error (hook (Sample.session
                 [Sample.chunk
                    (data_line (q "{'type':'error','message':'Failed to parse progress update'}")
                     ++ nl)]))
  = error (hook (Sample.session [Sample.chunk (data_line Sample.malformed_payload ++ nl)])).
Proof. split; vm_compute; reflexivity. Qed.

(** C6. A response whose status is not 2xx, met by a session started from a
    render in which [isComplete] is still true (here, after a first session
    that completed): the error state is set to the text with the status, but
    [onError], though supplied, is not invoked, because the outer [catch]
    tests the [isComplete] its closure captured and not the one of the
    session. *)
Lemma request_failure_after_completed_session :
  isComplete
    (hook (@useSSE_effect text_platform "/api/analyze-stream" Sample.options
             (@FetchResolves text_platform
                (Sample.response 200 "OK"
                   (Some [Sample.chunk (data_line Sample.complete_payload ++ nl)])))
             reset))
  = true /\
  trace (@useSSE_effect text_platform "/api/analyze-stream" Sample.options
           (@FetchResolves text_platform (Sample.response 500 "Internal Server Error" None))
           (hook (@useSSE_effect text_platform "/api/analyze-stream" Sample.options
                    (@FetchResolves text_platform
                       (Sample.response 200 "OK"
                          (Some [Sample.chunk (data_line Sample.complete_payload ++ nl)])))
                    reset)))
  = [console_error "SSE connection error:" (JS.new_Error "HTTP 500: Internal Server Error");
     setError (JS.Str "HTTP 500: Internal Server Error");
     setIsConnected false].
Proof. split; vm_compute; reflexivity. Qed.


(** C9, as stated, fails: a stream that ends cleanly without any [complete]
    or [error] frame still sets the error state when one of its [data: ]
    lines held a payload that is not valid JSON, or the JSON [null]. *)
Lemma clean_end_after_parse_failure :
  emitted (trace (Sample.session [Sample.chunk (data_line Sample.malformed_payload ++ nl)]))
  = [] /\
  error (hook (Sample.session [Sample.chunk (data_line Sample.malformed_payload ++ nl)]))
  = JS.Str "Failed to parse progress update" /\
  emitted (trace (Sample.session
                    [Sample.chunk (data_line Sample.progress_payload ++ nl ++
                                   data_line "null" ++ nl)]))
  = [Sample.progress_frame; JS.Null] /\
  error (hook (Sample.session
                 [Sample.chunk (data_line Sample.progress_payload ++ nl ++
                                data_line "null" ++ nl)]))
  = JS.Str "Failed to parse progress update".
Proof. repeat split; vm_compute; reflexivity. Qed.

(** ** Line assembly *)

(** X1. Splitting the buffer and popping the last piece loses nothing: the lines
    handed to the loop, each followed by a line feed, and then the piece kept
    in the buffer, spell the text that was split. *)
Theorem pop_split_round_trip (buffer : string) :
  join (fst (pop (split LF buffer))) ++ snd (pop (split LF buffer)) = buffer.
Proof.
  rewrite pop_split. induction buffer as [|c s IH]; [reflexivity|].
  simpl scan. destruct (scan s) as [lines rest]. simpl in IH.
  destruct (Ascii.eqb c LF) eqn:Ec.
  - apply Ascii.eqb_eq in Ec. subst c. simpl. now rewrite IH.
  - destruct lines as [|first others]; simpl in *; now rewrite IH.
Qed.

(** X2. No line handed to the loop holds a line feed, and neither does the
    piece kept in the buffer. *)
Theorem pop_split_no_LF (buffer : string) :
  Forall (fun line => no_LF line = true) (fst (pop (split LF buffer))) /\
  no_LF (snd (pop (split LF buffer))) = true.
Proof.
  rewrite pop_split. induction buffer as [|c s IH]; [split; [constructor | reflexivity]|].
  simpl scan. destruct (scan s) as [lines rest]. simpl in IH. destruct IH as [Hl Hr].
  destruct (Ascii.eqb c LF) eqn:Ec.
  - split; [constructor; [reflexivity | exact Hl] | exact Hr].
  - destruct lines as [|first others]; simpl.
    + split; [constructor | now rewrite Ec].
    + inversion Hl; subst. split; [|exact Hr].
      constructor; [simpl; now rewrite Ec | assumption].
Qed.

(** ** The shape of every session *)

Section Shape.

Context {P : Platform}.
Variable options : UseSSEOptions.
Variable isComplete_captured : bool.

Lemma substring_slice (n : nat) (s p : string) :
  substring 0 n s = p -> String.length p = n -> s = p ++ slice n s.
Proof.
  revert s p. induction n as [|n IH]; intros s p H Hlen.
  - destruct p; [|discriminate]. reflexivity.
  - destruct s as [|c s]; simpl in H; subst p; [discriminate|].
    simpl in Hlen. injection Hlen as Hlen.
    unfold slice; fold slice. simpl. f_equal. now apply IH.
Qed.

Lemma starts_data_line (line : string) :
  startsWith line "data: " = true -> line = data_line (slice 6 line).
Proof.
  unfold startsWith, data_line. intros H. apply prefix_correct in H.
  now apply substring_slice.
Qed.

(** The reads of a body: chunks, then the end of the stream or a rejection. *)
Lemma reads_split (reads : list ReadResult) :
  exists chunks tail,
    reads = (map Resolves chunks ++ tail)%list /\
    (tail = [] \/ exists err rest, tail = Rejects err :: rest).
Proof.
  induction reads as [|[chunk|err] reads IH].
  - exists [], []. split; [reflexivity | now left].
  - destruct IH as (chunks & tail & -> & Htail).
    exists (chunk :: chunks), tail. split; [reflexivity | exact Htail].
  - exists [], (Rejects err :: reads). split; [reflexivity|]. right. now exists err, reads.
Qed.

(** Either no line stops the reader, or there is a first one. *)
Lemma lines_split (lines : list string) :
  Forall (fun l => stops l = false) lines \/
  exists pre line post,
    lines = (pre ++ line :: post)%list /\
    Forall (fun l => stops l = false) pre /\ stops line = true.
Proof.
  induction lines as [|l lines IH]; [left; constructor|].
  destruct (stops l) eqn:Hl.
  - right. exists [], l, lines. repeat split; [constructor | exact Hl].
  - destruct IH as [Hq | (pre & line & post & -> & Hpre & Hline)].
    + left. now constructor.
    + right. exists (l :: pre), line, post. repeat split; [now constructor | exact Hline].
Qed.

(** The frames of lines that do not stop the reader are passing frames. *)
Lemma quiet_updates (lines : list string) :
  Forall (fun l => stops l = false) lines -> Forall passing (updates_of lines).
Proof.
  induction 1 as [|l lines Hl _ IH]; [constructor|].
  simpl. unfold stops in Hl.
  destruct (startsWith l "data: "); [|exact IH].
  destruct (JSON_parse (slice 6 l)) as [update|err]; [|discriminate].
  constructor; [|exact IH].
  simpl in Hl. destruct update; try discriminate;
    (split; [discriminate|]); apply orb_false_elim in Hl; exact Hl.
Qed.

(** What the loop body does on a line that stops the reader. *)
Lemma for_body_stopping (line : string) (r : Run) :
  stops line = true ->
  exists o,
    valid_outcome o /\ o <> Ended /\ (forall err, o <> Failed err) /\
    fst (for_body options line r)
    = perform_all (ending_calls options isComplete_captured o) r.
Proof.
  intros Hstop. pose proof Hstop as Hs. unfold stops in Hs.
  destruct (startsWith line "data: ") eqn:Hstart; [|discriminate].
  rewrite (starts_data_line _ Hstart). simpl in Hs.
  destruct (JSON_parse (slice 6 line)) as [update|err] eqn:Hparse.
  - destruct (has_type update "complete") eqn:Hc.
    + exists (Completed update). repeat split; try discriminate; [exact Hc|].
      now rewrite (for_body_complete options _ _ r Hparse Hc).
    + destruct (has_type update "error") eqn:He.
      * exists (Reported update). repeat split; try discriminate; [exact He|].
        now rewrite (for_body_error options _ _ r Hparse He).
      * destruct update; try discriminate.
        exists NullPayload. repeat split; try discriminate.
        rewrite for_body_data_line. unfold try_block. now rewrite Hparse.
  - exists (Unparsable err). repeat split; try discriminate.
    now rewrite (for_body_unparsable options _ _ r Hparse).
Qed.

(** Every session connects or not, stores a run of passing frames, and
    ends in one of six ways: its calls are those and no others. *)
Lemma session_shape (net : FetchResult) (h : Hook) :
  exists connected frames o,
    connectSSE options isComplete_captured net h
    = perform_all
        (connected ++ map setData frames ++ ending_calls options isComplete_captured o)%list
        (start h) /\
    (connected = [] /\ frames = [] \/ connected = [setIsConnected true]) /\
    Forall passing frames /\
    valid_outcome o.
Proof.
  destruct net as [response|err].
  - destruct (ok response) eqn:Hok.
    + destruct (body response) as [reads|] eqn:Hbody.
      * destruct (reads_split reads) as (chunks & tail & -> & Htail).
        destruct (lines_split (complete_lines (decoded chunks)))
          as [Hq | (pre & line & post & Hlines & Hpre & Hline)].
        -- exists [setIsConnected true], (updates_of (complete_lines (decoded chunks))).
           destruct Htail as [-> | (err & rest & ->)].
           ++ exists Ended. rewrite app_nil_r in Hbody.
              unfold connectSSE. rewrite (quiet_session_ends options _ _ h Hok Hbody Hq).
              simpl ending_calls. rewrite app_nil_r.
              repeat split; [now right | now apply quiet_updates].
           ++ unfold connectSSE.
              rewrite (quiet_session_rejects options _ _ _ h _ Hok Hbody Hq).
              destruct (String.eqb (JS.name err) "AbortError") eqn:Hname.
              ** exists Ended. simpl ending_calls. rewrite app_nil_r.
                 repeat split; [now right | now apply quiet_updates].
              ** exists (Failed err). apply String.eqb_neq in Hname.
                 repeat split; [| now right | now apply quiet_updates | exact Hname].
                 change ([setIsConnected true] ++ ?l ++ ?t)%list
                   with (setIsConnected true :: l ++ t)%list.
                 rewrite run_shape, run_shape_nil. simpl ending_calls.
                 destruct (onError options && negb isComplete_captured); reflexivity.
        -- exists [setIsConnected true], (updates_of pre).
           destruct (for_body_stopping line
                       (perform_all (setIsConnected true :: map setData (updates_of pre))
                                    (start h)) Hline)
             as (o & Hvalid & _ & _ & Hrun).
           exists o.
           rewrite (connectSSE_stops options isComplete_captured
                      _ _ _ h _ _ _ Hok Hbody Hlines Hpre Hline), Hrun.
           repeat split; [| now right | now apply quiet_updates | exact Hvalid].
           change ([setIsConnected true] ++ ?l ++ ?t)%list
             with (setIsConnected true :: l ++ t)%list.
           now rewrite run_shape, run_shape_nil.
      * exists [setIsConnected true], [], (Failed (JS.new_Error "No response body")).
        unfold connectSSE, try_connect. rewrite Hok, Hbody. simpl.
        repeat split; [| now right | constructor | discriminate].
        destruct (onError options && negb isComplete_captured); reflexivity.
    + exists [], [],
        (Failed (JS.new_Error
                   ("HTTP " ++ show_nat (status response) ++ ": " ++ statusText response))).
      unfold connectSSE, try_connect. rewrite Hok. simpl.
      repeat split; [| now left | constructor | discriminate].
      destruct (onError options && negb isComplete_captured); reflexivity.
  - unfold connectSSE. simpl try_connect. cbv iota.
    destruct (String.eqb (JS.name err) "AbortError") eqn:Hname.
    + exists [], [], Ended. repeat split; [now left | constructor].
    + exists [], [], (Failed err). apply String.eqb_neq in Hname.
      repeat split; [| now left | constructor | exact Hname].
      simpl. destruct (onError options && negb isComplete_captured); reflexivity.
Qed.

(** *** What follows from the shape *)

Lemma session_trace (net : FetchResult) (h : Hook) (calls : list Call) :
  connectSSE options isComplete_captured net h = perform_all calls (start h) ->
  trace (connectSSE options isComplete_captured net h) = calls /\
  hook (connectSSE options isComplete_captured net h) = replay calls h.
Proof. intros ->. now rewrite trace_perform_all, hook_perform_all. Qed.

Lemma callbacks_setData (frames : list JS.Value) :
  filter is_callback (map setData frames) = [].
Proof. induction frames as [|f fs IH]; [reflexivity | exact IH]. Qed.

Lemma cancels_setData (frames : list JS.Value) :
  filter is_cancel (map setData frames) = [].
Proof. induction frames as [|f fs IH]; [reflexivity | exact IH]. Qed.

Lemma after_cancel_app (a b : list Call) :
  filter is_cancel a = [] -> after_cancel (a ++ b)%list = after_cancel b.
Proof.
  induction a as [|c a IH]; [reflexivity|].
  destruct c; simpl; try discriminate; exact IH.
Qed.

Lemma prefix_fields (connected : list Call) (frames : list JS.Value) (h : Hook) :
  connected = [] /\ frames = [] \/ connected = [setIsConnected true] ->
  error (hook (perform_all (map setData frames) (perform_all connected (start h))))
  = error h /\
  isComplete (hook (perform_all (map setData frames) (perform_all connected (start h))))
  = isComplete h /\
  cancelled (perform_all (map setData frames) (perform_all connected (start h))) = false.
Proof.
  intros Hc.
  destruct (perform_setData_fields frames (perform_all connected (start h)))
    as (He & Hi & _ & Hx).
  rewrite He, Hi, Hx. destruct Hc as [[-> _] | ->]; repeat split.
Qed.

(** X4. A session invokes at most one callback: [onComplete] once, or [onError]
    once, or neither. *)
Theorem at_most_one_callback (net : FetchResult) (h : Hook) :
  List.length (filter is_callback (trace (connectSSE options isComplete_captured net h))) <= 1.
Proof.
  destruct (session_shape net h) as (connected & frames & o & Hrun & Hc & _ & _).
  destruct (session_trace net h _ Hrun) as [-> _].
  rewrite !filter_app, callbacks_setData.
  assert (Hconn : filter is_callback connected = [])
    by (destruct Hc as [[-> _] | ->]; reflexivity).
  rewrite Hconn. simpl app.
  destruct o; unfold ending_calls, after_callback, catch_calls;
    repeat match goal with
      | |- context [if ?b then _ else _] => destruct b
      | |- context [match ?x with Some _ => _ | None => _ end] => destruct x
      end;
    simpl; repeat constructor.
Qed.

(** X5. Once the reader is cancelled, no frame is handed to [setData] any
    more. The reader is cancelled at most twice in a session, and at most
    once when no callback throws: the second call is the one of the inner
    [catch], reached when [onComplete] or [onError] throws after the first. *)
Theorem nothing_stored_after_cancel (net : FetchResult) (h : Hook) :
  emitted (after_cancel (trace (connectSSE options isComplete_captured net h))) = [] /\
  List.length (filter is_cancel (trace (connectSSE options isComplete_captured net h))) <= 2 /\
  ((forall result, onComplete_throws options result = None) ->
   (forall errorMsg, onError_throws options errorMsg = None) ->
   List.length (filter is_cancel (trace (connectSSE options isComplete_captured net h))) <= 1).
Proof.
  destruct (session_shape net h) as (connected & frames & o & Hrun & Hc & _ & _).
  destruct (session_trace net h _ Hrun) as [-> _].
  assert (Hconn : filter is_cancel connected = [])
    by (destruct Hc as [[-> _] | ->]; reflexivity).
  rewrite !filter_app, cancels_setData, Hconn.
  rewrite (after_cancel_app connected _ Hconn).
  rewrite (after_cancel_app (map setData frames) _ (cancels_setData frames)).
  simpl app.
  split; [|split].
  - destruct o; unfold ending_calls, after_callback, catch_calls;
      repeat match goal with
        | |- context [if ?b then _ else _] => destruct b
        | |- context [match ?x with Some _ => _ | None => _ end] => destruct x
        end;
      reflexivity.
  - destruct o; unfold ending_calls, after_callback, catch_calls;
      repeat match goal with
        | |- context [if ?b then _ else _] => destruct b
        | |- context [match ?x with Some _ => _ | None => _ end] => destruct x
        end;
      simpl; repeat constructor.
  - intros HonComplete HonError.
    destruct o; unfold ending_calls;
      rewrite ?HonError;
      repeat match goal with
        | |- context [onComplete_throws options ?v] => rewrite (HonComplete v)
        | |- context [if ?b then _ else _] => destruct b
        | |- context [match ?x with Some _ => _ | None => _ end] => destruct x
        end;
      simpl; repeat constructor.
Qed.

Lemma or_else_truthy (v : option JS.Value) (dflt : JS.Value) :
  JS.truthy (Some dflt) = true -> JS.truthy (Some (JS.or_else v dflt)) = true.
Proof.
  intros Hd. unfold JS.or_else. destruct v as [x|]; [|exact Hd].
  destruct (JS.truthy (Some x)) eqn:Hx; [exact Hx | exact Hd].
Qed.

Lemma message_or_default_truthy (err : JS.Error) :
  JS.truthy (Some (message_or_default err)) = true.
Proof.
  unfold message_or_default. simpl.
  destruct (String.eqb (JS.message err) EmptyString) eqn:E; [reflexivity|].
  now rewrite E.
Qed.

(** X6. Whatever a session stores in the error state is truthy (never [null],
    never the empty text), so that a test such as [if (error)] sees it. *)
Theorem stored_error_is_truthy (net : FetchResult) (h : Hook) (e : JS.Value) :
  In (setError e) (trace (connectSSE options isComplete_captured net h)) ->
  JS.truthy (Some e) = true.
Proof.
  destruct (session_shape net h) as (connected & frames & o & Hrun & Hc & _ & _).
  destruct (session_trace net h _ Hrun) as [-> _].
  intros Hin. apply in_app_or in Hin as [Hin | Hin].
  { destruct Hc as [[-> _] | ->]; simpl in Hin; intuition discriminate. }
  apply in_app_or in Hin as [Hin | Hin].
  { apply in_map_iff in Hin as (f & Hf & _). discriminate. }
  destruct o; unfold ending_calls, after_callback, catch_calls in Hin;
    repeat match type of Hin with
      | context [if ?b then _ else _] => destruct b
      | context [match ?x with Some _ => _ | None => _ end] => destruct x
      end;
    simpl in Hin;
    repeat match type of Hin with
      | _ \/ _ => destruct Hin as [Hin | Hin]
      | False => destruct Hin
      | _ = setError _ => try discriminate; injection Hin as <-
      end;
    try reflexivity;
    try (apply or_else_truthy; reflexivity);
    try apply message_or_default_truthy.
Qed.

End Shape.

(** ** Sessions as the effect starts them *)

Section Effect.

Context {P : Platform}.

(** X3. Every session is an optional [setIsConnected(true)], then the frames
    that do not stop the reader, each handed to [setData], then the calls of
    one ending: the stream ended or was aborted, a [complete] frame, an
    [error] frame, a payload that does not parse, the payload [null], or a
    failure that is not an abort. The ending of a [complete] or an [error]
    frame whose callback throws goes on with the calls of the inner [catch].
    No frame is stored before connecting. *)
Theorem session_calls_shape (options : UseSSEOptions) (isComplete_captured : bool)
        (net : FetchResult) (h : Hook) :
  exists connected frames o,
    trace (connectSSE options isComplete_captured net h)
    = (connected ++ map setData frames ++ ending_calls options isComplete_captured o)%list /\
    (connected = [] /\ frames = [] \/ connected = [setIsConnected true]) /\
    Forall passing frames /\
    valid_outcome o.
Proof.
  destruct (session_shape options isComplete_captured net h)
    as (connected & frames & o & Hrun & Hc & Hf & Ho).
  exists connected, frames, o.
  destruct (session_trace options isComplete_captured net h _ Hrun) as [Ht _].
  now rewrite Ht.
Qed.

Lemma effect_runs (url : string) (options : UseSSEOptions) (net : FetchResult) (h : Hook) :
  enabled options = true ->
  url <> EmptyString ->
  useSSE_effect url options net h = connectSSE options (isComplete h) net reset.
Proof.
  intros He Hu. unfold useSSE_effect. rewrite He.
  apply String.eqb_neq in Hu. now rewrite Hu.
Qed.

(** The ending of a session that leaves [isComplete] true, started from a
    state in which it was false: a [complete] frame, after which the reader
    is cancelled; the error state is untouched unless [onComplete] throws. *)
Lemma completed_outcome (connected : list Call) (frames : list JS.Value) (o : Outcome)
      (options : UseSSEOptions) (captured : bool) (h : Hook) :
  connected = [] /\ frames = [] \/ connected = [setIsConnected true] ->
  isComplete h = false ->
  isComplete (hook (perform_all
                      (connected ++ map setData frames ++ ending_calls options captured o)%list
                      (start h))) = true ->
  exists update,
    o = Completed update /\
    cancelled (perform_all
                 (connected ++ map setData frames ++ ending_calls options captured o)%list
                 (start h)) = true /\
    ((forall result, onComplete_throws options result = None) ->
     error (hook (perform_all
                    (connected ++ map setData frames ++ ending_calls options captured o)%list
                    (start h))) = error h).
Proof.
  intros Hc Hh. rewrite !perform_all_app.
  destruct (prefix_fields connected frames h Hc) as (He & Hi & Hx).
  set (R := perform_all (map setData frames) (perform_all connected (start h))) in *.
  destruct o.
  - simpl. rewrite Hi, Hh. discriminate.
  - intros _. exists update. split; [reflexivity|]. split.
    + unfold ending_calls, after_callback, catch_calls;
        repeat match goal with
          | |- context [if ?b then _ else _] => destruct b
          | |- context [match ?x with Some _ => _ | None => _ end] => destruct x
          end;
        reflexivity.
    + intros Hreturns. unfold ending_calls.
      repeat match goal with
        | |- context [onComplete_throws options ?v] => rewrite (Hreturns v)
        | |- context [if ?b then _ else _] => destruct b
        | |- context [match ?x with Some _ => _ | None => _ end] => destruct x
        end;
      simpl; exact He.
  - unfold ending_calls, after_callback, catch_calls;
      repeat match goal with
        | |- context [if ?b then _ else _] => destruct b
        | |- context [match ?x with Some _ => _ | None => _ end] => destruct x
        end;
      simpl; rewrite Hi, Hh; discriminate.
  - simpl. rewrite Hi, Hh. discriminate.
  - simpl. rewrite Hi, Hh. discriminate.
  - unfold ending_calls;
      repeat match goal with
        | |- context [if ?b then _ else _] => destruct b
        end;
      simpl; rewrite Hi, Hh; discriminate.
Qed.

(** X8. In a session that the effect starts with an [onComplete] that does
    not throw, [isComplete] and the error state are never both set: when
    [isComplete] is true at the end, the error state is [null] and the
    reader has been cancelled. *)
Theorem complete_excludes_error (url : string) (options : UseSSEOptions)
        (net : FetchResult) (h : Hook) :
  enabled options = true ->
  url <> EmptyString ->
  (forall result, onComplete_throws options result = None) ->
  isComplete (hook (useSSE_effect url options net h)) = true ->
  error (hook (useSSE_effect url options net h)) = JS.Null /\
  cancelled (useSSE_effect url options net h) = true.
Proof.
  intros He Hu Hreturns. rewrite (effect_runs url options net h He Hu).
  destruct (session_shape options (isComplete h) net reset)
    as (connected & frames & o & Hrun & Hc & _ & _).
  rewrite Hrun. intros Hdone.
  destruct (completed_outcome connected frames o options (isComplete h) reset
              Hc eq_refl Hdone) as (update & _ & Hcan & Herr).
  split; [exact (Herr Hreturns) | exact Hcan].
Qed.

(** X9. A session does not depend on the state the hook was in when the effect
    started, except for the call of [onError] from the [catch]: the state it
    ends in, the frames it stores and whether it cancels the reader are the
    same from any two states. *)
Theorem session_isolated (url : string) (options : UseSSEOptions)
        (net : FetchResult) (h h' : Hook) :
  enabled options = true ->
  url <> EmptyString ->
  hook (useSSE_effect url options net h) = hook (useSSE_effect url options net h') /\
  emitted (trace (useSSE_effect url options net h))
  = emitted (trace (useSSE_effect url options net h')) /\
  cancelled (useSSE_effect url options net h) = cancelled (useSSE_effect url options net h').
Proof.
  intros He Hu. rewrite !(effect_runs url options net _ He Hu).
  unfold connectSSE.
  destruct (try_connect options net (start reset)) as [r [err|]]; [|repeat split].
  destruct (String.eqb (JS.name err) "AbortError"); [repeat split|].
  destruct (onError options), (isComplete h), (isComplete h'); simpl;
    rewrite ?emitted_app; simpl; rewrite ?app_nil_r; repeat split.
Qed.

(** X10. Only the text the chunks decode to matters, not where the chunks are
    cut: two runs of chunks that the decoder turns into the same text (and
    leave it in the same state) give the same session, whatever reads
    follow. *)
Theorem chunking_irrelevant (options : UseSSEOptions) (isComplete_captured : bool)
        (response : Response) (chunks chunks' : list Chunk) (rest : list ReadResult)
        (h : Hook) :
  decode_all new_TextDecoder chunks = decode_all new_TextDecoder chunks' ->
  connectSSE options isComplete_captured
    (FetchResolves (with_body response (map Resolves chunks ++ rest)%list)) h
  = connectSSE options isComplete_captured
      (FetchResolves (with_body response (map Resolves chunks' ++ rest)%list)) h.
Proof.
  intros Hsame. unfold connectSSE.
  destruct (ok response) eqn:Hok.
  - rewrite (connect_chunks options (with_body response _) chunks rest h Hok eq_refl).
    rewrite (connect_chunks options (with_body response _) chunks' rest h Hok eq_refl).
    unfold decoded. now rewrite Hsame.
  - unfold try_connect.
    change (ok (with_body response (map Resolves chunks ++ rest)%list)) with (ok response).
    change (ok (with_body response (map Resolves chunks' ++ rest)%list)) with (ok response).
    rewrite Hok. reflexivity.
Qed.

End Effect.

(** ** The progress display *)

Section Stages.

Variable Inherited : Type.
Variable Object_prototype : string -> option Inherited.

Lemma stepMap_in_range (k : string) (n : nat) :
  Progress.own k Progress.stepMap = Some n -> n < List.length Progress.STEPS.
Proof.
  unfold Progress.stepMap. cbn [Progress.own].
  repeat match goal with
    | |- context [String.eqb ?a k] =>
        destruct (String.eqb a k); [intros H; injection H as <-; repeat constructor|]
    end.
  discriminate.
Qed.

Lemma active_step_cases (step : option string) :
  (forall k, step = Some k -> Object_prototype k = None) ->
  exists n,
    Progress.getActiveStep Inherited Object_prototype step = inl n /\
    n < List.length Progress.STEPS.
Proof.
  intros Hown. unfold Progress.getActiveStep.
  destruct step as [k|]; [|exists 0; split; [reflexivity | repeat constructor]].
  destruct (String.eqb k EmptyString); [exists 0; split; [reflexivity | repeat constructor]|].
  destruct (Progress.own k Progress.stepMap) as [n|] eqn:Hn.
  - exists n. split; [reflexivity | exact (stepMap_in_range k n Hn)].
  - rewrite (Hown k eq_refl). exists 0. split; [reflexivity | repeat constructor].
Qed.

Lemma own_unknown (k : string) (props : list (string * nat)) :
  ~ In k (map fst props) -> Progress.own k props = None.
Proof.
  induction props as [|[k' v] props IH]; [reflexivity|].
  intros Hnot. cbn [Progress.own].
  destruct (String.eqb k' k) eqn:Hk.
  - apply String.eqb_eq in Hk. exfalso. apply Hnot. now left.
  - apply IH. intros Hin. apply Hnot. now right.
Qed.

(** X11. For a step key that [Object.prototype] does not define (and for a
    missing or empty one), [getActiveStep] returns the index of one of the
    five stages, so that [STEPS[activeStep]] exists: the index [stepMap]
    gives for a key it holds, and stage 0 for a missing step, an empty one
    and a key [stepMap] does not hold. *)
Theorem active_step_selects_a_stage (step : option string) :
  (forall k, step = Some k -> Object_prototype k = None) ->
  exists n stage,
    Progress.getActiveStep Inherited Object_prototype step = inl n /\
    nth_error Progress.STEPS n = Some stage /\
    (forall k, step = Some k -> ~ In k (map fst Progress.stepMap) -> n = 0) /\
    (step = None \/ step = Some EmptyString -> n = 0) /\
    (forall k m, step = Some k -> In (k, m) Progress.stepMap -> n = m).
Proof.
  intros Hown. destruct (active_step_cases step Hown) as (n & Hn & Hlt).
  exists n. destruct (nth_error Progress.STEPS n) as [stage|] eqn:Hs.
  - exists stage. split; [exact Hn|]. split; [reflexivity|]. split; [|split].
    + intros k -> Hnot. unfold Progress.getActiveStep in Hn.
      destruct (String.eqb k EmptyString); [now injection Hn as <-|].
      rewrite (own_unknown k _ Hnot), (Hown k eq_refl) in Hn. now injection Hn as <-.
    + intros [-> | ->]; now injection Hn as <-.
    + intros k m -> Hin. unfold Progress.stepMap in Hin. cbn [In] in Hin.
      repeat match type of Hin with
        | _ \/ _ => destruct Hin as [Hin | Hin]
        | False => destruct Hin
        | (_, _) = (_, _) => injection Hin as <- <-; now injection Hn as <-
        end.
  - apply nth_error_None in Hs. exfalso. apply (Nat.lt_irrefl n).
    eapply Nat.lt_le_trans; [exact Hlt | exact Hs].
Qed.

(** X12. The key of each stage of [STEPS] selects that very stage, whatever
    [Object.prototype] holds: the two tables agree. *)
Theorem stage_key_selects_its_stage (index : nat) (stage : Progress.Stage) :
  nth_error Progress.STEPS index = Some stage ->
  Progress.getActiveStep Inherited Object_prototype (Some (Progress.key stage)) = inl index.
Proof.
  intros H.
  do 5 (destruct index as [|index]; [injection H as <-; reflexivity|]).
  destruct index; discriminate.
Qed.

(** X13. The stepper marks exactly one stage as active, the one selected, and
    marks as completed exactly the stages before it. *)
Theorem stepper_marks_one_active (step : option string) (n : nat) :
  (forall k, step = Some k -> Object_prototype k = None) ->
  Progress.getActiveStep Inherited Object_prototype step = inl n ->
  filter (Progress.isActive n) (seq 0 (List.length Progress.STEPS)) = [n] /\
  filter (Progress.isCompleted n) (seq 0 (List.length Progress.STEPS)) = seq 0 n.
Proof.
  intros Hown Hn. destruct (active_step_cases step Hown) as (m & Hm & Hlt).
  rewrite Hn in Hm. injection Hm as <-.
  do 5 (destruct n as [|n]; [split; reflexivity|]).
  exfalso. simpl in Hlt. do 5 apply le_S_n in Hlt. inversion Hlt.
Qed.

End Stages.

(** ** The application around the hook *)

Section Application.

Context {P : Platform}.

Lemma sseUrl_not_empty (env : option string) (query : App.DrugQuery) (app : App.State) :
  App.sseUrl env (App.handleSearch query app) <> EmptyString.
Proof.
  unfold App.sseUrl, App.handleSearch, App.getAnalyzeStreamURL. simpl.
  destruct (App.API_BASE_URL env); discriminate.
Qed.

(** A search starts a session of the hook, with both callbacks supplied. *)
Lemma search_starts_session (env : option string) (query : App.DrugQuery) (app : App.State)
      (net : FetchResult) (h : Hook) :
  App.session env (App.handleSearch query app) net h
  = connectSSE (App.sseOptions (App.handleSearch query app)) (isComplete h) net reset.
Proof.
  unfold App.session. apply effect_runs; [reflexivity | apply sseUrl_not_empty].
Qed.

Lemma react_setData (updates : list JS.Value) (app : App.State) :
  fold_left App.react (map setData updates) app = app.
Proof. induction updates as [|u us IH]; [reflexivity | exact IH]. Qed.

Lemma react_prefix (connected : list Call) (frames : list JS.Value) (tail : list Call)
      (app : App.State) :
  connected = [] /\ frames = [] \/ connected = [setIsConnected true] ->
  fold_left App.react (connected ++ map setData frames ++ tail)%list app
  = fold_left App.react tail app.
Proof.
  intros Hc. rewrite !fold_left_app, react_setData.
  now destruct Hc as [[-> _] | ->].
Qed.

(** X14. A search whose stream reaches a [complete] frame with a truthy result:
    the application stores that result and disables the stream
    ([sseEnabled] becomes false), so the results are shown and the progress
    panel is not. *)
Theorem complete_frame_shows_results
  (env : option string) (query : App.DrugQuery) (app : App.State)
  (response : Response) (chunks : list Chunk) (rest : list ReadResult) (h : Hook)
  (pre post : list string) (payload : string) (update result : JS.Value) :
  ok response = true ->
  body response = Some (map Resolves chunks ++ rest)%list ->
  complete_lines (decoded chunks) = (pre ++ data_line payload :: post)%list ->
  Forall (fun l => stops l = false) pre ->
  JSON_parse payload = inl update ->
  has_type update "complete" = true ->
  JS.prop update "result" = Some result ->
  JS.truthy (Some result) = true ->
  App.results
    (App.after_run (App.handleSearch query app)
       (App.session env (App.handleSearch query app) (FetchResolves response) h))
  = result /\
  App.sseEnabled
    (App.after_run (App.handleSearch query app)
       (App.session env (App.handleSearch query app) (FetchResolves response) h))
  = false /\
  App.results_shown
    (App.after_run (App.handleSearch query app)
       (App.session env (App.handleSearch query app) (FetchResolves response) h))
  = true /\
  App.analysis_running
    (App.after_run (App.handleSearch query app)
       (App.session env (App.handleSearch query app) (FetchResolves response) h))
    (hook (App.session env (App.handleSearch query app) (FetchResolves response) h))
  = false.
Proof.
  intros Hok Hbody Hlines Hpre Hparse Htype Hresult Htruthy.
  assert (Hstop : stops (data_line payload) = true).
  { rewrite stops_data_line, Hparse, Htype. now destruct update. }
  rewrite search_starts_session.
  rewrite (connectSSE_stops _ _ _ _ _ reset _ _ _ Hok Hbody Hlines Hpre Hstop).
  rewrite (for_body_complete _ _ _ _ Hparse Htype). cbn [fst].
  rewrite Hresult, Htruthy. cbn [App.sseOptions onComplete andb].
  unfold App.after_run, App.results_shown, App.analysis_running.
  rewrite !trace_perform_all. cbn [trace start List.app].
  change (setIsConnected true :: map setData (updates_of pre) ++ ?t)%list
    with ([setIsConnected true] ++ map setData (updates_of pre) ++ t)%list.
  rewrite react_prefix by now right.
  simpl fold_left. unfold App.handleComplete. rewrite Htruthy. simpl.
  repeat split. exact Htruthy.
Qed.

(** X15. A search whose stream runs into a payload that does not parse: no
    callback reaches the application, which stays as the search left it.
    The stream stays enabled and [isComplete] false, so the progress panel
    stays up, showing the error, and the search form stays disabled. *)
Theorem parse_failure_leaves_app_running
  (env : option string) (query : App.DrugQuery) (app : App.State)
  (response : Response) (chunks : list Chunk) (rest : list ReadResult) (h : Hook)
  (pre post : list string) (payload : string) (err : JS.Error) :
  ok response = true ->
  body response = Some (map Resolves chunks ++ rest)%list ->
  complete_lines (decoded chunks) = (pre ++ data_line payload :: post)%list ->
  Forall (fun l => stops l = false) pre ->
  JSON_parse payload = inr err ->
  App.after_run (App.handleSearch query app)
    (App.session env (App.handleSearch query app) (FetchResolves response) h)
  = App.handleSearch query app /\
  App.analysis_running (App.handleSearch query app)
    (hook (App.session env (App.handleSearch query app) (FetchResolves response) h))
  = true /\
  JS.truthy
    (Some (error (hook (App.session env (App.handleSearch query app)
                          (FetchResolves response) h))))
  = true.
Proof.
  intros Hok Hbody Hlines Hpre Hparse.
  rewrite search_starts_session.
  rewrite (parse_failure_run _ _ _ _ _ reset _ _ _ _ Hok Hbody Hlines Hpre Hparse).
  unfold App.after_run, App.analysis_running.
  rewrite trace_perform_all. cbn [trace start List.app].
  split; [|rewrite run_shape; split; [|reflexivity];
           destruct (perform_setData_fields (updates_of pre)
                       (start reset ;> setIsConnected true)) as (_ & Hi & _ & _);
           simpl; now rewrite Hi].
  change (setIsConnected true :: map setData (updates_of pre) ++ ?t)%list
    with ([setIsConnected true] ++ map setData (updates_of pre) ++ t)%list.
  rewrite react_prefix by now right. reflexivity.
Qed.

(** X16. The empty-results notice around a search. In the render the search
    causes, before the effect has reset the hook, the notice is shown exactly
    when [isComplete] is still true from an earlier session, whatever [data]
    holds. At the end of the session the search starts, it is shown only
    when the last frame stored is a [complete] frame whose [result] is absent
    or falsy. *)
Theorem empty_results_means_no_result
  (env : option string) (query : App.DrugQuery) (app : App.State)
  (net : FetchResult) (h : Hook) :
  App.empty_results_shown (App.handleSearch query app) h = isComplete h /\
  (App.empty_results_shown
     (App.after_run (App.handleSearch query app)
        (App.session env (App.handleSearch query app) net h))
     (hook (App.session env (App.handleSearch query app) net h))
   = true ->
   exists update,
     last (emitted (trace (App.session env (App.handleSearch query app) net h))) JS.Null
     = update /\
     has_type update "complete" = true /\
     JS.truthy (JS.prop update "result") = false).
Proof.
  split.
  { unfold App.empty_results_shown. cbn. now rewrite !andb_true_r. }
  rewrite search_starts_session.
  destruct (session_shape (App.sseOptions (App.handleSearch query app)) (isComplete h)
                          net reset)
    as (connected & frames & o & Hrun & Hc & _ & Hvalid).
  rewrite Hrun. unfold App.empty_results_shown, App.after_run.
  intros Hshown. apply andb_prop in Hshown as [Hshown _].
  apply andb_prop in Hshown as [Hdone Hempty].
  destruct (completed_outcome connected frames o _ _ reset Hc eq_refl Hdone)
    as (update & -> & _ & _).
  exists update. rewrite trace_perform_all. cbn [trace start List.app].
  rewrite trace_perform_all in Hempty. cbn [trace start List.app] in Hempty.
  rewrite react_prefix in Hempty by exact Hc.
  split; [|split; [exact Hvalid|]].
  - assert (Hemit : emitted (ending_calls (App.sseOptions (App.handleSearch query app))
                                         (isComplete h) (Completed update))
                    = [update]).
    { simpl.
      destruct (JS.truthy (JS.prop update "result"));
        [destruct (JS.prop update "result")|]; reflexivity. }
    rewrite !emitted_app, Hemit, app_assoc. apply last_last.
  - cbn [ending_calls App.sseOptions onComplete onComplete_throws after_callback andb]
      in Hempty.
    destruct (JS.truthy (JS.prop update "result")) eqn:Ht; [|reflexivity]. exfalso.
    destruct (JS.prop update "result") as [result|] eqn:Hres; [|discriminate].
    cbn [List.app fold_left App.react] in Hempty.
    unfold App.handleComplete in Hempty. rewrite Ht in Hempty.
    cbn [negb App.results] in Hempty. rewrite Ht in Hempty. discriminate.
Qed.

(** X17. A search answered by a status that is not 2xx, in a render whose
    [isComplete] is false (a first search, for one): [handleError] runs, the
    stream is disabled and the progress panel goes away, while the hook keeps
    the text [HTTP <status>: <statusText>] as its error. *)
Theorem request_failure_stops_app
  (env : option string) (query : App.DrugQuery) (app : App.State)
  (response : Response) (h : Hook) :
  ok response = false ->
  isComplete h = false ->
  App.sseEnabled
    (App.after_run (App.handleSearch query app)
       (App.session env (App.handleSearch query app) (FetchResolves response) h))
  = false /\
  App.analysis_running
    (App.after_run (App.handleSearch query app)
       (App.session env (App.handleSearch query app) (FetchResolves response) h))
    (hook (App.session env (App.handleSearch query app) (FetchResolves response) h))
  = false /\
  error (hook (App.session env (App.handleSearch query app) (FetchResolves response) h))
  = JS.Str ("HTTP " ++ show_nat (status response) ++ ": " ++ statusText response).
Proof.
  intros Hok Hh. rewrite search_starts_session.
  unfold connectSSE, try_connect. rewrite Hok, Hh. repeat split.
Qed.

End Application.

(** ** The further theorems at sample streams *)

Lemma stored_error_is_truthy_witness :
  JS.truthy (Some (JS.Str "DrugBank unavailable")) = true.
Proof.
  apply (@stored_error_is_truthy text_platform Sample.options false
           (@FetchResolves text_platform
              (Sample.response 200 "OK"
                 (Some [Sample.chunk (data_line Sample.error_payload ++ nl)])))
           reset (JS.Str "DrugBank unavailable")).
  vm_compute. right. right. left. reflexivity.
Defined.

Lemma complete_excludes_error_witness :
  error (hook (@useSSE_effect text_platform "/api/analyze-stream" Sample.options
                 (@FetchResolves text_platform
                    (Sample.response 200 "OK"
                       (Some [Sample.chunk (data_line Sample.complete_payload ++ nl);
                              Rejects Sample.NetworkError])))
                 reset))
  = JS.Null.
Proof.
  apply (@complete_excludes_error text_platform "/api/analyze-stream" Sample.options
           (@FetchResolves text_platform
              (Sample.response 200 "OK"
                 (Some [Sample.chunk (data_line Sample.complete_payload ++ nl);
                        Rejects Sample.NetworkError])))
           reset eq_refl ltac:(discriminate) (fun _ => eq_refl)).
  vm_compute. reflexivity.
Defined.

Lemma session_isolated_witness :
  hook (@useSSE_effect text_platform "/api/analyze-stream" Sample.options
          (@FetchResolves text_platform (Sample.response 500 "Internal Server Error" None))
          reset)
  = hook (@useSSE_effect text_platform "/api/analyze-stream" Sample.options
            (@FetchResolves text_platform (Sample.response 500 "Internal Server Error" None))
            (hook (Sample.session [Sample.chunk (data_line Sample.complete_payload ++ nl)]))).
Proof.
  apply (@session_isolated text_platform "/api/analyze-stream" Sample.options
           (@FetchResolves text_platform (Sample.response 500 "Internal Server Error" None))
           reset
           (hook (Sample.session [Sample.chunk (data_line Sample.complete_payload ++ nl)]))
           eq_refl ltac:(discriminate)).
Defined.

Lemma chunking_irrelevant_witness :
  @connectSSE text_platform Sample.options false
    (@FetchResolves text_platform
       (with_body (Sample.response 200 "OK" None)
                  (map Sample.chunk Sample.split_stream ++ [])%list)) reset
  = @connectSSE text_platform Sample.options false
      (@FetchResolves text_platform
         (with_body (Sample.response 200 "OK" None)
                    (map Sample.chunk
                         [(data_line Sample.progress_payload ++ nl ++
                           data_line Sample.complete_payload ++ nl)%string] ++ [])%list))
      reset.
Proof.
  apply (@chunking_irrelevant text_platform Sample.options false
           (Sample.response 200 "OK" None)
           Sample.split_stream
           [data_line Sample.progress_payload ++ nl ++
            data_line Sample.complete_payload ++ nl]
           [] reset).
  reflexivity.
Defined.

Lemma active_step_selects_a_stage_witness :
  Progress.getActiveStep unit Progress.standard_prototype (Some "reticulating") = inl 0.
Proof.
  destruct (active_step_selects_a_stage unit Progress.standard_prototype
              (Some "reticulating"))
    as (n & stage & Hn & _ & Hunknown & _).
  - intros k H. injection H as <-. reflexivity.
  - rewrite Hn. f_equal. apply (Hunknown "reticulating" eq_refl).
    cbn. intros H.
    repeat match type of H with
      | _ \/ _ => destruct H as [H | H]; [discriminate|]
      end.
    exact H.
Defined.

Lemma stage_key_selects_its_stage_witness :
  Progress.getActiveStep unit Progress.standard_prototype (Some "normalizing") = inl 3.
Proof.
  apply (stage_key_selects_its_stage unit Progress.standard_prototype 3
           {| Progress.key := "normalizing"; Progress.label := "Data Processing";
              Progress.description := "Computing metrics & statistics" |}).
  reflexivity.
Defined.

Lemma stepper_marks_one_active_witness :
  filter (Progress.isActive 1) (seq 0 (List.length Progress.STEPS)) = [1] /\
  filter (Progress.isCompleted 1) (seq 0 (List.length Progress.STEPS)) = seq 0 1.
Proof.
  apply (stepper_marks_one_active unit Progress.standard_prototype
           (Some "extracting_article") 1).
  - intros k H. injection H as <-. reflexivity.
  - reflexivity.
Defined.

Lemma complete_frame_shows_results_witness :
  App.results
    (App.after_run
       (App.handleSearch
          {| App.drug := "warfarin"; App.indication := None; App.population := None;
             App.article_count := None; App.clinical_trials_count := None |}
          {| App.results := JS.Null; App.currentQuery := None; App.sseEnabled := false |})
       (@App.session text_platform None
          (App.handleSearch
             {| App.drug := "warfarin"; App.indication := None; App.population := None;
                App.article_count := None; App.clinical_trials_count := None |}
             {| App.results := JS.Null; App.currentQuery := None; App.sseEnabled := false |})
          (@FetchResolves text_platform
             (Sample.response 200 "OK"
                (Some [Sample.chunk (data_line Sample.progress_payload ++ nl ++
                                     data_line Sample.complete_payload ++ nl)])))
          reset))
  = JS.Object [("drug", JS.Str "warfarin")].
Proof.
  apply (@complete_frame_shows_results text_platform None
           {| App.drug := "warfarin"; App.indication := None; App.population := None;
              App.article_count := None; App.clinical_trials_count := None |}
           {| App.results := JS.Null; App.currentQuery := None; App.sseEnabled := false |}
           (Sample.response 200 "OK"
              (Some [Sample.chunk (data_line Sample.progress_payload ++ nl ++
                                   data_line Sample.complete_payload ++ nl)]))
           [data_line Sample.progress_payload ++ nl ++ data_line Sample.complete_payload ++ nl]
           [] reset
           [data_line Sample.progress_payload] []
           Sample.complete_payload Sample.complete_frame
           (JS.Object [("drug", JS.Str "warfarin")])
           eq_refl eq_refl eq_refl
           (Forall_cons (data_line Sample.progress_payload) eq_refl (Forall_nil _))
           eq_refl eq_refl eq_refl eq_refl).
Defined.

Lemma parse_failure_leaves_app_running_witness :
  App.analysis_running
    (App.handleSearch
       {| App.drug := "warfarin"; App.indication := None; App.population := None;
          App.article_count := None; App.clinical_trials_count := None |}
       {| App.results := JS.Null; App.currentQuery := None; App.sseEnabled := false |})
    (hook (@App.session text_platform None
             (App.handleSearch
                {| App.drug := "warfarin"; App.indication := None; App.population := None;
                   App.article_count := None; App.clinical_trials_count := None |}
                {| App.results := JS.Null; App.currentQuery := None; App.sseEnabled := false |})
             (@FetchResolves text_platform
                (Sample.response 200 "OK"
                   (Some [Sample.chunk (data_line Sample.malformed_payload ++ nl)])))
             reset))
  = true.
Proof.
  apply (@parse_failure_leaves_app_running text_platform None
           {| App.drug := "warfarin"; App.indication := None; App.population := None;
              App.article_count := None; App.clinical_trials_count := None |}
           {| App.results := JS.Null; App.currentQuery := None; App.sseEnabled := false |}
           (Sample.response 200 "OK"
              (Some [Sample.chunk (data_line Sample.malformed_payload ++ nl)]))
           [data_line Sample.malformed_payload ++ nl]
           [] reset
           [] []
           Sample.malformed_payload Json.SyntaxError
           eq_refl eq_refl eq_refl (Forall_nil _) eq_refl).
Defined.

Lemma empty_results_means_no_result_witness :
  exists update,
    last (emitted
            (trace (@App.session text_platform None
                      (App.handleSearch
                         {| App.drug := "warfarin"; App.indication := None;
                            App.population := None; App.article_count := None;
                            App.clinical_trials_count := None |}
                         {| App.results := JS.Null; App.currentQuery := None;
                            App.sseEnabled := false |})
                      (@FetchResolves text_platform
                         (Sample.response 200 "OK"
                            (Some [Sample.chunk
                                     (data_line Sample.bare_complete_payload ++ nl)])))
                      reset)))
         JS.Null
    = update /\
    has_type update "complete" = true /\
    JS.truthy (JS.prop update "result") = false.
Proof.
  apply (@empty_results_means_no_result text_platform None
           {| App.drug := "warfarin"; App.indication := None; App.population := None;
              App.article_count := None; App.clinical_trials_count := None |}
           {| App.results := JS.Null; App.currentQuery := None; App.sseEnabled := false |}
           (@FetchResolves text_platform
              (Sample.response 200 "OK"
                 (Some [Sample.chunk (data_line Sample.bare_complete_payload ++ nl)])))
           reset).
  vm_compute. reflexivity.
Defined.

Lemma request_failure_stops_app_witness :
  App.sseEnabled
    (App.after_run
       (App.handleSearch
          {| App.drug := "warfarin"; App.indication := None; App.population := None;
             App.article_count := None; App.clinical_trials_count := None |}
          {| App.results := JS.Null; App.currentQuery := None; App.sseEnabled := false |})
       (@App.session text_platform None
          (App.handleSearch
             {| App.drug := "warfarin"; App.indication := None; App.population := None;
                App.article_count := None; App.clinical_trials_count := None |}
             {| App.results := JS.Null; App.currentQuery := None; App.sseEnabled := false |})
          (@FetchResolves text_platform (Sample.response 503 "Service Unavailable" None))
          reset))
  = false.
Proof.
  apply (@request_failure_stops_app text_platform None
           {| App.drug := "warfarin"; App.indication := None; App.population := None;
              App.article_count := None; App.clinical_trials_count := None |}
           {| App.results := JS.Null; App.currentQuery := None; App.sseEnabled := false |}
           (Sample.response 503 "Service Unavailable" None) reset eq_refl eq_refl).
Defined.
